(** * PrefPaneUtil: locking and unlocking System Preferences panes

    A shallow embedding of [PrefPaneUtil.py] and the properties of its
    disabled-list reconciliation (lock, unlock, unlock-all, restore).

    The script runs once per invocation: it reads the host-wide
    [DisabledPreferencePanes] array, edits a copy and writes it back to
    [DisabledPreferencePanes] and [HiddenPreferencePanes].  The store, the
    restore file and the terminal are the only state it touches, so a
    [World] holds exactly these three. *)

From Stdlib Require Import Ascii String.
From stdpp Require Import base option list strings gmap.

Open Scope string_scope.
Open Scope list_scope.

(** ** Python 2 byte strings

    Identifiers are Python 2 [str] values: sequences of 8-bit characters,
    which is what Rocq's [string] is. *)

Module PyStr.

(** The characters [str.strip] and [str.rstrip] remove when called without
    an argument: tab, line feed, vertical tab, form feed, carriage return
    and space. *)
Definition isspace (c : ascii) : bool :=
  let n := nat_of_ascii c in
  (Nat.leb 9 n && Nat.leb n 13) || Nat.eqb n 32.

Definition newline : ascii := "010"%char.
Definition quote : ascii := "034"%char.

Definition nl : string := String newline EmptyString.
Definition dq : string := String quote EmptyString.

(** [s.lstrip(chars)] and [s.rstrip(chars)], the characters to remove given
    as a predicate. *)
Fixpoint lstrip_by (p : ascii → bool) (s : string) : string :=
  match s with
  | EmptyString => EmptyString
  | String c s' => if p c then lstrip_by p s' else s
  end.

Fixpoint rstrip_by (p : ascii → bool) (s : string) : string :=
  match s with
  | EmptyString => EmptyString
  | String c s' =>
      match rstrip_by p s' with
      | EmptyString => if p c then EmptyString else String c EmptyString
      | r => String c r
      end
  end.

Definition rstrip (s : string) : string := rstrip_by isspace s.

Definition strip (s : string) : string := lstrip_by isspace (rstrip s).

(** [s.strip(chars)] with the double quote as the only character *)
Definition strip_quotes (s : string) : string :=
  lstrip_by (Ascii.eqb quote) (rstrip_by (Ascii.eqb quote) s).

(** [s.split(sep)] for a one-character separator: never empty, and the
    pieces between two separators may be empty. *)
Fixpoint split (sep : ascii) (s : string) : list string :=
  match s with
  | EmptyString => [EmptyString]
  | String c s' =>
      if Ascii.eqb c sep then EmptyString :: split sep s'
      else match split sep s' with
           | [] => [String c EmptyString]
           | p :: ps => String c p :: ps
           end
  end.

(** Iterating over a file opened in mode ['r']: every line keeps its
    terminating line feed; a last line without one is still a line. *)
Fixpoint readlines (s : string) : list string :=
  match s with
  | EmptyString => []
  | String c s' =>
      if Ascii.eqb c newline then nl :: readlines s'
      else match readlines s' with
           | [] => [String c EmptyString]
           | l :: ls => String c l :: ls
           end
  end.

(** ["-" * n] *)
Fixpoint repeat_str (s : string) (n : nat) : string :=
  match n with
  | O => EmptyString
  | S n' => s +:+ repeat_str s n'
  end.

(** A format field [{i:n}] applied to a string: left-justified, padded
    with spaces to at least [n] characters. *)
Definition ljust (n : nat) (s : string) : string :=
  s +:+ repeat_str " " (n - String.length s).

(** [sub in s] on strings. *)
Fixpoint contains (sub s : string) : bool :=
  String.prefix sub s ||
  match s with
  | EmptyString => false
  | String _ s' => contains sub s'
  end.

End PyStr.

(** ** Python lists *)

Module PyList.

(** [l.remove(x)]: drops the first element equal to [x]; [None] stands
    for the [ValueError] raised when there is none. *)
Fixpoint remove (x : string) (l : list string) : option (list string) :=
  match l with
  | [] => None
  | y :: l' =>
      if decide (y = x) then Some l'
      else cons y <$> remove x l'
  end.

(** [l.count(x)] *)
Definition count (x : string) (l : list string) : nat :=
  length (filter (λ y, y = x) l).

End PyList.

(** ** The world the script acts on *)

Record World := mkWorld {
  (** the [com.apple.systempreferences] domain for any user on the current
      host: key to array of strings; a key that is not set reads as
      [None] *)
  prefs : gmap string (list string);
  (** the file system: path to contents *)
  files : gmap string string;
  (** lines printed so far *)
  stdout : list string;
}.

Definition set_prefs (f : gmap string (list string) → gmap string (list string))
    (w : World) : World :=
  mkWorld (f (prefs w)) (files w) (stdout w).

Definition set_files (f : gmap string string → gmap string string)
    (w : World) : World :=
  mkWorld (prefs w) (f (files w)) (stdout w).

Definition add_stdout (out : list string) (w : World) : World :=
  mkWorld (prefs w) (files w) (stdout w ++ out).

(** ** The interpreter monad

    A statement either completes, leaves through [sys.exit], or raises an
    exception nobody catches. *)

Inductive Outcome (A : Type) : Type :=
| Return (a : A) (w : World)
| SysExit (code : nat) (w : World)
| Raise (exn : string) (w : World).

Arguments Return {A} a w.
Arguments SysExit {A} code w.
Arguments Raise {A} exn w.

Definition Py (A : Type) : Type := World → Outcome A.

Global Instance Py_ret : MRet Py := λ A a w, Return a w.

Global Instance Py_bind : MBind Py := λ A B f m w,
  match m w with
  | Return a w' => f a w'
  | SysExit c w' => SysExit c w'
  | Raise e w' => Raise e w'
  end.

Definition print (s : string) : Py unit :=
  λ w, Return () (add_stdout [s] w).

Definition sys_exit {A} (code : nat) : Py A := λ w, SysExit code w.

Definition raise {A} (exn : string) : Py A := λ w, Raise exn w.

(** [for x in l: body], where [body] updates the loop-carried value. *)
Fixpoint for_each {A S} (l : list A) (body : A → S → Py S) (s : S) : Py S :=
  match l with
  | [] => mret s
  | x :: l' => s' ← body x s; for_each l' body s'
  end.

(** The final state and the exit status of the process. *)
Definition final {A} (o : Outcome A) : World :=
  match o with
  | Return _ w | SysExit _ w | Raise _ w => w
  end.

Definition exit_status {A} (o : Outcome A) : nat :=
  match o with
  | Return _ _ => 0
  | SysExit c _ => c
  | Raise _ _ => 1
  end.

(** ** CoreFoundation preferences, the file system

    Every call of the script names the same domain, user and host, so a
    preference is identified by its key.  Setting a key to [None] removes
    it. *)

Definition CFPreferencesCopyValue (key : string) : Py (option (list string)) :=
  λ w, Return (prefs w !! key) w.

Definition CFPreferencesSetValue (key : string) (value : option (list string))
    : Py unit :=
  λ w, Return () (set_prefs (match value with
                             | Some v => <[key:=v]>
                             | None => delete key
                             end) w).

Definition CFPreferencesSynchronize : Py unit := mret ().

Definition os_path_isfile (path : string) : Py bool :=
  λ w, Return (bool_decide (is_Some (files w !! path))) w.

Definition os_remove (path : string) : Py unit :=
  λ w, match files w !! path with
       | Some _ => Return () (set_files (delete path) w)
       | None => Raise "OSError" w
       end.

(** [open(path, 'a')]: the file is created when it does not exist. *)
Definition open_append (path : string) : Py unit :=
  λ w, Return () (set_files (λ fs, <[path := default EmptyString (fs !! path)]> fs) w).

(** [f.write(s)] on a file opened for appending. *)
Definition file_write (path : string) (s : string) : Py unit :=
  λ w, Return () (set_files (λ fs, <[path := default EmptyString (fs !! path) +:+ s]> fs) w).

(** [open(path, 'r')] and the contents read through the handle; [None]
    stands for the [IOError] of a missing file. *)
Definition open_read (path : string) : Py (option string) :=
  λ w, Return (files w !! path) w.

(** [l.remove(x)] as a statement. *)
Definition list_remove (x : string) (l : list string) : Py (list string) :=
  match PyList.remove x l with
  | Some l' => mret l'
  | None => raise "ValueError"
  end.

(** What a run is given from outside: the user id, the two directories of
    preference panes (bundle directory name, and what [defaults read] prints
    for its [CFBundleIdentifier], [None] when the command fails), and the
    console user with what [defaults read com.apple.systempreferences]
    prints for that user. *)
Record Host := mkHost {
  getuid : nat;
  system_bundles : list (string * option string);
  library_bundles : list (string * option string);
  console_stat : string;
  console_defaults : option string;
}.

Definition restore_path : string := "/tmp/prefpanes.restore".

(** ** The script *)

Definition help_text : string :=
"
This tool is designed to lock/unlock OS X System Preference Panes. In addition to
locking the pane, it also hides the pane from view. Preference panes are specified
by their Bundle Identifier, found in the Info.plist file found in each .prefPane directory.
Available arguments are as follows:

 -h, --help  : Print this help page
 --list      : List available preference panes
 --locked    : List currently locked preference panes
 --unlock    : Unlock a list of preference pane bundle identifiers. Example:
               ./PrefPaneUtil.py --unlock " +:+ PyStr.dq +:+
"com.apple.preference.sound, com.apple.prefs.backup" +:+ PyStr.dq +:+ "

 --lock      : Lock a list of preference pane bundle identifiers. Example:
               ./PrefPaneUtil.py --lock " +:+ PyStr.dq +:+
"com.apple.preference.sound, com.apple.prefs.backup" +:+ PyStr.dq +:+ "

 --restore   : Restore the list of preference panes locked before running --unlockall
 --unlockall : Unlock all preference panes
    ".

Definition print_help : Py unit := print help_text.

Definition syntax_text : string :=
"Syntax:
    ./PrefPaneUtil.py --lock " +:+ PyStr.dq +:+
"com.apple.preference.spotlight, com.apple.prefs.backup" +:+ PyStr.dq +:+ "
    ./PrefPaneUtil.py --unlock " +:+ PyStr.dq +:+
"com.apple.preference.spotlight, com.apple.prefs.backup" +:+ PyStr.dq +:+ "
        ".

(** One directory of [get_bundle_identifiers]: the dictionary is keyed by
    the directory name up to its first dot, a later bundle with the same key
    replaces an earlier one. *)
Definition read_bundles (bundles : list (string * option string))
    : Py (gmap string string) :=
  for_each bundles (λ '(directory, output) (panes : gmap string string),
    match output with
    | Some identifier =>
        mret (<[hd EmptyString (PyStr.split "." directory) := PyStr.rstrip identifier]> panes)
    | None => raise "CalledProcessError"
    end) ∅.

Definition get_bundle_identifiers (h : Host)
    : Py (gmap string string * gmap string string) :=
  system_panes ← read_bundles (system_bundles h);
  other_panes ← read_bundles (library_bundles h);
  mret (system_panes, other_panes).

(** [template.format(a, b)] for [template = "{0:25}{1:45}"] *)
Definition template_format (a b : string) : string :=
  PyStr.ljust 25 a +:+ PyStr.ljust 45 b.

Definition rule : string :=
  template_format (PyStr.repeat_str "-" 25) (PyStr.repeat_str "-" 45).

Definition list_current_locked (locked_panes : option (list string)) : Py unit :=
  match locked_panes with
  | None => print "No preference panes are currently locked";; sys_exit 1
  | Some panes =>
      print (PyStr.repeat_str "-" 45);;
      print "Locked Preference Panes";;
      print (PyStr.repeat_str "-" 45);;
      for_each panes (λ pane _, print pane) ();;
      print (PyStr.repeat_str "-" 45)
  end.

(** [defaults delete com.apple.systempreferences key], run as the console
    user through [subprocess.call]: it acts on that user's own preferences,
    which are no part of the [World], and its exit status is ignored. *)
Definition defaults_delete (user key : string) : Py unit := mret ().

(** [sanity_check]: [check_output] raises when [defaults read] fails for
    the console user. *)
Definition sanity_check (h : Host) : Py unit :=
  let current_user := PyStr.strip_quotes (PyStr.rstrip (console_stat h)) in
  if decide (current_user = "root") then mret ()
  else match console_defaults h with
       | None => raise "CalledProcessError"
       | Some disabled_hidden =>
           (if PyStr.contains "DisabledPreferencePanes" disabled_hidden
            then defaults_delete current_user "DisabledPreferencePanes"
            else mret ());;
           (if PyStr.contains "HiddenPreferencePanes" disabled_hidden
            then defaults_delete current_user "HiddenPreferencePanes"
            else mret ())
       end.

Definition modify_panes (value : option (list string)) : Py unit :=
  CFPreferencesSetValue "DisabledPreferencePanes" value;;
  CFPreferencesSetValue "HiddenPreferencePanes" value;;
  CFPreferencesSynchronize.

Definition unlocked_message : string :=
  "All preference panes unlocked! Restore file is saved at '/tmp/prefpanes.restore'. Use --restore to "
  +:+ "restore all previous locks.".

Definition restored_message : string :=
  "Preference pane locks restored from '/tmp/prefpanes.restore'. Restore file has been deleted.".

(** [unlock_all]: save the locked panes to the restore file, one per line,
    and unlock everything. *)
Definition unlock_all (locked_panes : option (list string)) : Py unit :=
  match locked_panes with
  | None => print "No panes are currently locked, exiting!";; sys_exit 1
  | Some panes =>
      isfile ← os_path_isfile restore_path;
      (if isfile : bool then os_remove restore_path else mret ());;
      open_append restore_path;;
      for_each panes (λ pane _, file_write restore_path (pane +:+ PyStr.nl)) ();;
      modify_panes None;;
      print unlocked_message
  end.

(** [restore_all]: lock the panes listed in the restore file and delete
    the file. *)
Definition restore_all : Py unit :=
  restore_file ← open_read restore_path;
  match restore_file with
  | None => print "/tmp/prefpanes.restore doesn't exist, sorry!";; sys_exit 1
  | Some contents =>
      restore_locks ← for_each (PyStr.readlines contents)
                        (λ line locks, mret (locks ++ [PyStr.rstrip line])) [];
      modify_panes (Some restore_locks);;
      os_remove restore_path;;
      print restored_message
  end.

(** One pass of the loop that locks: a pane found in the array is skipped,
    any other is appended. *)
Definition lock_pane (to_lock : string) (new_locked_panes : list string)
    : Py (list string) :=
  if bool_decide (to_lock ∈ new_locked_panes) then
    print (to_lock +:+ " is already locked, skipping.");;
    mret new_locked_panes
  else
    print (to_lock +:+ " is current unlocked, locking.");;
    mret (new_locked_panes ++ [to_lock]).

(** One pass of the loop that unlocks: a pane found in the array is removed
    with the array's [remove], which like a list's takes out the first
    match. *)
Definition unlock_pane (to_unlock : string) (new_locked_panes : list string)
    : Py (list string) :=
  if bool_decide (to_unlock ∈ new_locked_panes) then
    print (to_unlock +:+ " is currently locked, unlocking.");;
    list_remove to_unlock new_locked_panes
  else mret new_locked_panes.

(** The branch of [lock_unlock_panes] taken for [--lock]: with nothing
    locked the request itself is written, otherwise the copy of the locked
    panes after the locking loop. *)
Definition lock_branch (locked_panes : option (list string))
    (new_locked_panes panes_to_modify : list string) : Py unit :=
  match locked_panes with
  | None => modify_panes (Some panes_to_modify)
  | Some _ =>
      new_locked_panes ← for_each panes_to_modify lock_pane new_locked_panes;
      modify_panes (Some new_locked_panes)
  end.

(** The branch taken for [--unlock]. *)
Definition unlock_branch (locked_panes : option (list string))
    (new_locked_panes panes_to_modify : list string) : Py unit :=
  match locked_panes with
  | None => print "No panes are currently locked, exiting!";; sys_exit 1
  | Some _ =>
      new_locked_panes ← for_each panes_to_modify unlock_pane new_locked_panes;
      modify_panes (Some new_locked_panes)
  end.

Section Script.

(** A Python 2 dictionary hands out its items in an order of its own.  The
    script is modelled for any such order. *)
Variable iteritems : ∀ V, gmap string V → list (string * V).

Definition values {V} (m : gmap string V) : list V := (iteritems V m).*2.

Definition list_bundle_identifiers (system_panes other_panes : gmap string string)
    : Py unit :=
  print rule;;
  print (template_format "System Panes" "Bundle Identifiers");;
  print rule;;
  for_each (iteritems _ system_panes)
    (λ '(key, value) _, print (template_format key value)) ();;
  print rule;;
  print (template_format "3rd Party Panes" "Bundle Identifiers");;
  print rule;;
  for_each (iteritems _ other_panes)
    (λ '(key, value) _, print (template_format key value)) ();;
  print rule.

(** The dictionary [valid_id] of [lock_unlock_panes]: every requested pane
    is entered as [False], and as [True] when it is among the values of
    [all_panes]. *)
Definition valid_id (all_panes : gmap string string) (panes_to_modify : list string)
    : gmap string bool :=
  foldl (λ (d : gmap string bool) pane,
           let d := <[pane:=false]> d in
           if bool_decide (pane ∈ values all_panes) then <[pane:=true]> d else d)
        ∅ panes_to_modify.

(** The loop over [valid_id] that reports the panes marked [False] and
    removes them from the request. *)
Definition remove_invalid (valid : gmap string bool) (panes_to_modify : list string)
    : Py (list string) :=
  for_each (iteritems _ valid)
    (λ '(key, value) panes,
       if negb value then
         print (key +:+ " is not a valid bundle identifier, removing");;
         list_remove key panes
       else mret panes)
    panes_to_modify.

(** The request as the script reads it from its argument: split at the
    commas, white space around each piece removed. *)
Definition parse_panes (argument : string) : list string :=
  PyStr.strip <$> PyStr.split "," argument.

Definition lock_unlock_panes (argv : list string)
    (locked_panes : option (list string))
    (system_panes other_panes : gmap string string) : Py unit :=
  match argv with
  | [_; command; argument] =>
      let panes_to_modify := parse_panes argument in
      let all_panes := other_panes ∪ system_panes in
      panes_to_modify ← remove_invalid (valid_id all_panes panes_to_modify) panes_to_modify;
      let new_locked_panes := default [] locked_panes in
      if decide (command = "--lock") then
        lock_branch locked_panes new_locked_panes panes_to_modify
      else if decide (command = "--unlock") then
        unlock_branch locked_panes new_locked_panes panes_to_modify
      else mret ()
  | _ => print syntax_text;; sys_exit 1
  end.

Definition main (h : Host) (argv : list string)
    (locked_panes : option (list string)) : Py unit :=
  if negb (Nat.eqb (getuid h) 0) then
    print "You must run this tool with sudo or as root!";; sys_exit 1
  else
    match argv with
    | [] => raise "IndexError"
    | [_] => print_help;; sys_exit 0
    | _ :: command :: _ =>
        if decide (command = "--list") then
          '(system_panes, other_panes) ← get_bundle_identifiers h;
          list_bundle_identifiers system_panes other_panes
        else if decide (command = "--locked") then
          list_current_locked locked_panes
        else if decide (command = "--unlock" ∨ command = "--lock") then
          '(system_panes, other_panes) ← get_bundle_identifiers h;
          sanity_check h;;
          lock_unlock_panes argv locked_panes system_panes other_panes
        else if decide (command = "--restore") then
          sanity_check h;; restore_all
        else if decide (command = "--unlockall") then
          sanity_check h;; unlock_all locked_panes
        else print_help
    end.

(** The module is executed top to bottom: [locked_panes] is read from the
    store first, then the arguments are dispatched. *)
Definition script (h : Host) (argv : list string) : Py unit :=
  locked_panes ← CFPreferencesCopyValue "DisabledPreferencePanes";
  main h argv locked_panes.

End Script.

(** ** What the runs are compared with

    The definitions below describe results; none of them is used by the
    script above. *)

Definition locked_panes_of (w : World) : option (list string) :=
  prefs w !! "DisabledPreferencePanes".

Definition hidden_panes_of (w : World) : option (list string) :=
  prefs w !! "HiddenPreferencePanes".

(** The world after [modify_panes value] and some printing. *)
Definition written (value : option (list string)) (out : list string)
    (w : World) : World :=
  add_stdout out
    (set_prefs (λ p, match value with
                     | Some v => <["HiddenPreferencePanes" := v]>
                                   (<["DisabledPreferencePanes" := v]> p)
                     | None => delete "HiddenPreferencePanes"
                                 (delete "DisabledPreferencePanes" p)
                     end) w).

(** An identifier is valid when some installed pane declares it. *)
Definition is_valid (all_panes : gmap string string) (x : string) : bool :=
  bool_decide (x ∈ (map_img all_panes : gset string)).

(** A list with the first occurrence of every invalid identifier taken
    out; [seen] holds the invalid identifiers met so far. *)
Fixpoint drop_invalid_once (valid : string → bool) (seen l : list string)
    : list string :=
  match l with
  | [] => []
  | x :: l' =>
      if valid x then x :: drop_invalid_once valid seen l'
      else if bool_decide (x ∈ seen) then x :: drop_invalid_once valid seen l'
      else drop_invalid_once valid (x :: seen) l'
  end.

(** The request that is left after validation. *)
Definition validated (system_panes other_panes : gmap string string)
    (argument : string) : list string :=
  drop_invalid_once (is_valid (other_panes ∪ system_panes)) []
    (parse_panes argument).

(** The keys a dictionary of validation results marks as invalid, in the
    order of its items. *)
Definition invalid_keys (items : list (string * bool)) : list string :=
  (filter (λ kv, kv.2 = false) items).*1.

Definition not_valid_message (x : string) : string :=
  x +:+ " is not a valid bundle identifier, removing".

(** [l.remove(x)] where a missing [x] is no error. *)
Definition remove_first (x : string) (l : list string) : list string :=
  default l (PyList.remove x l).

(** The array after the locking loop, and after the unlocking loop. *)
Definition lock_all (current to_lock : list string) : list string :=
  foldl (λ acc x, if bool_decide (x ∈ acc) then acc else acc ++ [x])
        current to_lock.

Definition unlock_each (current to_unlock : list string) : list string :=
  foldl (λ acc x, remove_first x acc) current to_unlock.

(** The array the locking branch writes. *)
Definition lock_result (locked_panes : option (list string))
    (to_lock : list string) : list string :=
  match locked_panes with
  | None => to_lock
  | Some current => lock_all current to_lock
  end.

(** The text of the restore file for a list of panes. *)
Definition snapshot_text (panes : list string) : string :=
  foldr (λ pane rest, pane +:+ PyStr.nl +:+ rest) EmptyString panes.

(** The panes [restore_all] reads from a restore file. *)
Definition snapshot_lines (contents : string) : list string :=
  PyStr.rstrip <$> PyStr.readlines contents.

(** An identifier survives a line of the restore file when it holds no line
    feed and does not end in white space. *)
Fixpoint has_newline (s : string) : bool :=
  match s with
  | EmptyString => false
  | String c s' => Ascii.eqb c PyStr.newline || has_newline s'
  end.

Fixpoint ends_in_space (s : string) : bool :=
  match s with
  | EmptyString => false
  | String c EmptyString => PyStr.isspace c
  | String _ s' => ends_in_space s'
  end.

Definition line_safe (s : string) : bool :=
  negb (has_newline s) && negb (ends_in_space s).

(** The invariant of the data model: the stored value lists exactly the
    intended identifiers, once each, and is absent when there are none. *)
Definition reconciled (intended : list string) (value : option (list string))
    : Prop :=
  match value with
  | None => intended = []
  | Some l => intended ≠ [] ∧ NoDup l ∧ ∀ x, x ∈ l ↔ x ∈ intended
  end.

(** A dictionary order to run examples with. *)
Definition sorted_items : ∀ V, gmap string V → list (string * V) :=
  λ V m, map_to_list m.

(** Catalogs and worlds to run examples with. *)
Definition sound_catalog : gmap string string :=
  {[ "Sound" := "com.example.sound" ]}.

Definition empty_world : World := mkWorld ∅ ∅ [].

Definition two_panes : list string :=
  ["com.example.sound"; "com.example.backup"].

Definition script_name : string := "./PrefPaneUtil.py".

(** A host where the script runs as root, with one system pane and root at
    the console; and the same host for an ordinary user. *)
Definition root_host : Host :=
  mkHost 0 [("Sound.prefPane", Some ("com.example.sound" +:+ PyStr.nl))] []
    ("root" +:+ PyStr.nl) None.

Definition user_host : Host :=
  mkHost 501 [("Sound.prefPane", Some ("com.example.sound" +:+ PyStr.nl))] []
    ("root" +:+ PyStr.nl) None.

Definition world_locking (panes : list string) : World :=
  mkWorld {[ "DisabledPreferencePanes" := panes ]} ∅ [].

(** ** What a run leaves alone

    [respects R m]: whatever the outcome of [m], the world it ends in is
    related by [R] to the world it started in, and the exit status of the
    process is 0 or 1. *)
Definition respects {A} (R : World → World → Prop) (m : Py A) : Prop :=
  ∀ w, R w (final (m w)) ∧ (exit_status (m w) ≤ 1)%nat.

(** Everything but the two preference keys and the restore file is as it
    was, and nothing printed is taken back. *)
Definition frame (w w' : World) : Prop :=
  (∀ key, key ≠ "DisabledPreferencePanes" → key ≠ "HiddenPreferencePanes" →
          prefs w' !! key = prefs w !! key)
  ∧ (∀ path, path ≠ restore_path → files w' !! path = files w !! path)
  ∧ stdout w `prefix_of` stdout w'.

(** The hidden panes are the disabled panes. *)
Definition mirrored (w : World) : Prop :=
  hidden_panes_of w = locked_panes_of w.

Definition keeps_mirrored (w w' : World) : Prop := mirrored w → mirrored w'.

(** Neither the preferences nor the files have changed. *)
Definition same_store (w w' : World) : Prop :=
  prefs w' = prefs w ∧ files w' = files w.

(** The commands that write. *)
Definition writing_commands : list string :=
  ["--unlock"; "--lock"; "--restore"; "--unlockall"].

(** The key [get_bundle_identifiers] files a bundle under. *)
Definition short_name (directory : string) : string :=
  hd EmptyString (PyStr.split "." directory).

(** A directory of bundles for which every [defaults read] succeeds. *)
Definition readable (good : list (string * string))
    : list (string * option string) :=
  (λ '(directory, output), (directory, Some output)) <$> good.

(** The dictionary such a directory is read into. *)
Definition catalog_of (good : list (string * string)) : gmap string string :=
  foldl (λ panes '(directory, output),
           <[short_name directory := PyStr.rstrip output]> panes) ∅ good.

(** [", ".join(panes)] *)
Fixpoint join_csv (panes : list string) : string :=
  match panes with
  | [] => EmptyString
  | [pane] => pane
  | pane :: rest => pane +:+ ", " +:+ join_csv rest
  end.

Definition has_comma (s : string) : bool :=
  bool_decide (","%char ∈ list_ascii_of_string s).

(** The lines [list_current_locked] prints for a list of panes. *)
Definition locked_table (panes : list string) : list string :=
  [PyStr.repeat_str "-" 45; "Locked Preference Panes";
   PyStr.repeat_str "-" 45] ++ panes ++ [PyStr.repeat_str "-" 45].

(** Unfolds the primitive statements in a run. *)
Ltac run :=
  repeat (unfold mbind, mret, Py_bind, Py_ret, print, sys_exit, raise,
            modify_panes, CFPreferencesSetValue, CFPreferencesSynchronize,
            CFPreferencesCopyValue, os_path_isfile, os_remove, open_append,
            open_read, file_write, add_stdout, set_prefs, set_files, written;
          simpl).

(** ** Strings *)

Lemma append_empty (t : string) : EmptyString +:+ t = t.
Proof. reflexivity. Qed.

Lemma append_String (c : ascii) (s t : string) :
  String c s +:+ t = String c (s +:+ t).
Proof. reflexivity. Qed.

Lemma append_nil_r (s : string) : s +:+ EmptyString = s.
Proof.
  induction s as [|c s IH]; [done |]. by rewrite append_String, IH.
Qed.

Lemma append_assoc (s t u : string) : s +:+ (t +:+ u) = (s +:+ t) +:+ u.
Proof.
  induction s as [|c s IH]; [done |]. by rewrite !append_String, IH.
Qed.

Lemma readlines_line (s rest : string) :
  has_newline s = false →
  PyStr.readlines (s +:+ PyStr.nl +:+ rest) = (s +:+ PyStr.nl) :: PyStr.readlines rest.
Proof.
  induction s as [|c s IH]; intros Hs; [done |].
  simpl in Hs. apply orb_false_iff in Hs as [Hc Hs].
  rewrite !append_String. simpl. rewrite Hc, (IH Hs). done.
Qed.

Lemma rstrip_by_append (p : ascii → bool) (s t : string) :
  PyStr.rstrip_by p t = EmptyString →
  PyStr.rstrip_by p (s +:+ t) = PyStr.rstrip_by p s.
Proof.
  intros Ht. induction s as [|c s IH]; [done |].
  rewrite append_String. simpl. by rewrite IH.
Qed.

Lemma rstrip_by_fixed (s : string) :
  ends_in_space s = false → PyStr.rstrip_by PyStr.isspace s = s.
Proof.
  induction s as [|c s IH]; simpl; [done |].
  destruct s as [|c' s'].
  - simpl. by intros ->.
  - intros Hs. rewrite (IH Hs). done.
Qed.

Lemma rstrip_line (s : string) :
  ends_in_space s = false → PyStr.rstrip (s +:+ PyStr.nl) = s.
Proof.
  intros Hs. unfold PyStr.rstrip.
  rewrite rstrip_by_append by done. by apply rstrip_by_fixed.
Qed.

Lemma snapshot_lines_text (panes : list string) :
  Forall (λ s, line_safe s = true) panes →
  snapshot_lines (snapshot_text panes) = panes.
Proof.
  unfold snapshot_lines. induction 1 as [|s panes Hs _ IH]; [done |].
  apply andb_true_iff in Hs as [Hn He].
  apply negb_true_iff in Hn, He.
  change (snapshot_text (s :: panes))
    with (s +:+ PyStr.nl +:+ snapshot_text panes).
  rewrite readlines_line, fmap_cons, rstrip_line, IH by done. done.
Qed.

(** ** Runs of the statements *)

Lemma add_stdout_nil (w : World) : add_stdout [] w = w.
Proof. destruct w. unfold add_stdout. simpl. by rewrite app_nil_r. Qed.

Lemma add_stdout_app (o1 o2 : list string) (w : World) :
  add_stdout o2 (add_stdout o1 w) = add_stdout (o1 ++ o2) w.
Proof. unfold add_stdout. simpl. by rewrite app_assoc. Qed.

Lemma bind_Return {A B} (m : Py A) (k : A → Py B) a w w' :
  m w = Return a w' → (m ≫= k) w = k a w'.
Proof. intros H. unfold mbind, Py_bind. by rewrite H. Qed.

Lemma modify_panes_run (value : option (list string)) (w : World) :
  modify_panes value w = Return () (written value [] w).
Proof.
  destruct w as [p fs out], value; run; by rewrite app_nil_r.
Qed.

Lemma write_panes_run (panes : list string) p fs out (c : string) :
  for_each panes (λ pane _, file_write restore_path (pane +:+ PyStr.nl)) ()
    (mkWorld p (<[restore_path := c]> fs) out)
  = Return () (mkWorld p (<[restore_path := c +:+ snapshot_text panes]> fs) out).
Proof.
  revert c. induction panes as [|pane panes IH]; intros c.
  - simpl. by rewrite append_nil_r.
  - simpl. run. rewrite lookup_insert_eq, insert_insert_eq. simpl.
    rewrite IH. by rewrite !append_assoc.
Qed.

Lemma unlock_all_run (panes : list string) (w : World) :
  unlock_all (Some panes) w
  = Return () (set_files (<[restore_path := snapshot_text panes]>)
                 (written None [unlocked_message] w)).
Proof.
  destruct w as [p fs out]. unfold unlock_all.
  erewrite bind_Return by reflexivity.
  assert (∃ fs1, (∀ A (k : unit → Py A),
            ((if bool_decide (is_Some (fs !! restore_path))
              then os_remove restore_path else mret ()) ≫= k) (mkWorld p fs out)
            = k () (mkWorld p fs1 out))
          ∧ fs1 !! restore_path = None
          ∧ ∀ c, <[restore_path := c]> fs1 = <[restore_path := c]> fs)
    as (fs1 & Hk & Hnone & Hins).
  { case_bool_decide as Hf.
    - exists (delete restore_path fs). split_and!.
      + intros A k. destruct Hf as [c Hc]. run. by rewrite Hc.
      + apply lookup_delete_eq.
      + intros c. apply insert_delete_eq.
    - exists fs. split_and!; [done | | done].
      by apply eq_None_not_Some. }
  simpl. rewrite Hk.
  erewrite bind_Return; last first.
  { unfold open_append, set_files. simpl. rewrite Hnone. reflexivity. }
  simpl.
  erewrite bind_Return by apply write_panes_run.
  rewrite Hins. run. done.
Qed.

Lemma unlock_all_absent (w : World) :
  unlock_all None w
  = SysExit 1 (add_stdout ["No panes are currently locked, exiting!"] w).
Proof. reflexivity. Qed.

Lemma collect_lines_run (lines acc : list string) (w : World) :
  for_each lines (λ line locks, mret (locks ++ [PyStr.rstrip line])) acc w
  = Return (acc ++ (PyStr.rstrip <$> lines)) w.
Proof.
  revert acc. induction lines as [|line lines IH]; intros acc.
  - simpl. by rewrite app_nil_r.
  - simpl. run. rewrite IH. by rewrite <- app_assoc.
Qed.

Lemma restore_all_run (contents : string) (w : World) :
  files w !! restore_path = Some contents →
  restore_all w
  = Return () (set_files (delete restore_path)
                 (written (Some (snapshot_lines contents)) [restored_message] w)).
Proof.
  intros Hc. destruct w as [p fs out]. simpl in Hc.
  unfold restore_all. erewrite bind_Return by reflexivity.
  simpl. rewrite Hc.
  erewrite bind_Return by apply collect_lines_run.
  run. by rewrite Hc.
Qed.

Lemma restore_all_missing (w : World) :
  files w !! restore_path = None →
  restore_all w
  = SysExit 1 (add_stdout ["/tmp/prefpanes.restore doesn't exist, sorry!"] w).
Proof.
  intros Hc. unfold restore_all. erewrite bind_Return by reflexivity.
  by rewrite Hc.
Qed.

(** ** Removing the first occurrence *)

Lemma filter_all {A} (P : A → Prop) `{!∀ x, Decision (P x)} (l : list A) :
  (∀ x, x ∈ l → P x) → filter P l = l.
Proof.
  induction l as [|x l IH]; intros Hl; [done |].
  rewrite filter_cons_True by (apply Hl; left).
  rewrite IH; [done |]. intros y Hy. apply Hl. by right.
Qed.

Lemma remove_first_cons_eq (x : string) (l : list string) :
  remove_first x (x :: l) = l.
Proof. unfold remove_first. simpl. by rewrite decide_True. Qed.

Lemma remove_first_cons_ne (x y : string) (l : list string) :
  y ≠ x → remove_first x (y :: l) = y :: remove_first x l.
Proof.
  intros Hne. unfold remove_first. simpl. rewrite decide_False by done.
  by destruct (PyList.remove x l).
Qed.

Lemma remove_elem (x : string) (l : list string) :
  x ∈ l → PyList.remove x l = Some (remove_first x l).
Proof.
  induction l as [|y l IH]; intros Hx; [by apply elem_of_nil in Hx |].
  destruct (decide (y = x)) as [->|Hne].
  - rewrite remove_first_cons_eq. simpl. by rewrite decide_True.
  - rewrite remove_first_cons_ne by done. simpl. rewrite decide_False by done.
    apply elem_of_cons in Hx as [->|Hx]; [done |]. by rewrite IH.
Qed.

Lemma remove_first_notin (x : string) (l : list string) :
  x ∉ l → remove_first x l = l.
Proof.
  induction l as [|y l IH]; intros Hx; [done |].
  apply not_elem_of_cons in Hx as [Hne Hx].
  rewrite remove_first_cons_ne by done. by rewrite IH.
Qed.

Lemma remove_first_perm (x : string) (l : list string) :
  x ∈ l → l ≡ₚ x :: remove_first x l.
Proof.
  induction l as [|y l IH]; intros Hx; [by apply elem_of_nil in Hx |].
  destruct (decide (y = x)) as [->|Hne].
  - by rewrite remove_first_cons_eq.
  - rewrite remove_first_cons_ne by done.
    apply elem_of_cons in Hx as [->|Hx]; [done |].
    rewrite (IH Hx) at 1. apply Permutation_swap.
Qed.

Lemma remove_first_sublist (x : string) (l : list string) :
  remove_first x l `sublist_of` l.
Proof.
  induction l as [|y l IH]; [done |].
  destruct (decide (y = x)) as [->|Hne].
  - rewrite remove_first_cons_eq. by apply sublist_cons.
  - rewrite remove_first_cons_ne by done. by apply sublist_skip.
Qed.

Lemma elem_of_remove_first (x y : string) (l : list string) :
  y ∈ remove_first x l → y ∈ l.
Proof. intros Hy. eapply elem_of_sublist, remove_first_sublist. done. Qed.

Lemma elem_of_remove_first_ne (x y : string) (l : list string) :
  y ≠ x → y ∈ l → y ∈ remove_first x l.
Proof.
  intros Hne. induction l as [|z l IH]; intros Hy; [done |].
  destruct (decide (z = x)) as [->|Hzx].
  - rewrite remove_first_cons_eq. apply elem_of_cons in Hy as [->|Hy]; done.
  - rewrite remove_first_cons_ne by done.
    apply elem_of_cons in Hy as [->|Hy]; [left | right; auto].
Qed.

Lemma remove_first_comm (x y : string) (l : list string) :
  remove_first x (remove_first y l) = remove_first y (remove_first x l).
Proof.
  induction l as [|z l IH]; [done |].
  destruct (decide (z = x)) as [Hzx|Hzx], (decide (z = y)) as [Hzy|Hzy].
  - by subst.
  - subst z. by rewrite (remove_first_cons_ne y x), !remove_first_cons_eq.
  - subst z. by rewrite (remove_first_cons_ne x y), !remove_first_cons_eq.
  - by rewrite !remove_first_cons_ne, IH.
Qed.

Lemma remove_first_NoDup (x : string) (l : list string) :
  NoDup l → remove_first x l = filter (λ y, y ≠ x) l.
Proof.
  induction 1 as [|y l Hy Hl IH]; [done |].
  destruct (decide (y = x)) as [->|Hne].
  - rewrite remove_first_cons_eq, filter_cons_False by naive_solver.
    rewrite <- IH. by rewrite remove_first_notin.
  - by rewrite remove_first_cons_ne, filter_cons_True, IH.
Qed.

(** ** The unlocking loop as a function *)

Lemma unlock_each_cons (x : string) (D L : list string) :
  unlock_each D (x :: L) = unlock_each (remove_first x D) L.
Proof. reflexivity. Qed.

Lemma unlock_each_sublist (D L : list string) :
  unlock_each D L `sublist_of` D.
Proof.
  revert D. induction L as [|x L IH]; intros D; [done |].
  rewrite unlock_each_cons. etrans; [apply IH | apply remove_first_sublist].
Qed.

Lemma unlock_each_perm (D L : list string) :
  NoDup L → (∀ x, x ∈ L → x ∈ D) → D ≡ₚ L ++ unlock_each D L.
Proof.
  intros HL. revert D. induction HL as [|x L Hx HL IH]; intros D Hsub; [done |].
  rewrite unlock_each_cons. simpl.
  rewrite <- IH.
  - apply remove_first_perm, Hsub. by left.
  - intros y Hy. apply elem_of_remove_first_ne; [by intros -> |].
    apply Hsub. by right.
Qed.

Lemma unlock_each_length (D L : list string) :
  NoDup L → (∀ x, x ∈ L → x ∈ D) →
  length (unlock_each D L) = length D - length L.
Proof.
  intros HL Hsub. rewrite (unlock_each_perm D L HL Hsub) at 2.
  rewrite length_app. lia.
Qed.

Lemma unlock_each_NoDup (D L : list string) :
  NoDup D → unlock_each D L = filter (λ y, y ∉ L) D.
Proof.
  revert D. induction L as [|x L IH]; intros D HD.
  - symmetry. apply filter_all. intros y _. apply not_elem_of_nil.
  - rewrite unlock_each_cons, remove_first_NoDup by done.
    rewrite IH by by apply NoDup_filter.
    rewrite list_filter_filter. apply list_filter_iff.
    intros y. rewrite not_elem_of_cons. tauto.
Qed.

Lemma unlock_each_filter (P : string → Prop) `{!∀ x, Decision (P x)}
    (D L : list string) :
  (∀ x, x ∈ D → P x) → unlock_each D (filter P L) = unlock_each D L.
Proof.
  revert D. induction L as [|x L IH]; intros D HD; [done |].
  destruct (decide (P x)) as [Hx|Hx].
  - rewrite filter_cons_True, !unlock_each_cons by done. apply IH.
    intros y Hy. by apply HD, (elem_of_remove_first x).
  - rewrite filter_cons_False, unlock_each_cons by done.
    rewrite remove_first_notin by (intros Hin; by apply Hx, HD). by apply IH.
Qed.

Lemma unlock_each_permutation (D L1 L2 : list string) :
  L1 ≡ₚ L2 → unlock_each D L1 = unlock_each D L2.
Proof.
  intros HL. revert D.
  induction HL as [|x L1 L2 _ IH|x y L|L1 L2 L3 _ IH1 _ IH2]; intros D.
  - done.
  - rewrite !unlock_each_cons. apply IH.
  - rewrite !unlock_each_cons. by rewrite remove_first_comm.
  - by rewrite IH1.
Qed.

(** ** The locking loop as a function *)

Lemma lock_all_cons (x : string) (D L : list string) :
  lock_all D (x :: L)
  = lock_all (if bool_decide (x ∈ D) then D else D ++ [x]) L.
Proof. reflexivity. Qed.

Lemma lock_all_prefix (D L : list string) : D `prefix_of` lock_all D L.
Proof.
  revert D. induction L as [|x L IH]; intros D; [done |].
  rewrite lock_all_cons. case_bool_decide; [apply IH |].
  etrans; [|apply IH]. by apply prefix_app_r.
Qed.

Lemma elem_of_lock_all (x : string) (D L : list string) :
  x ∈ lock_all D L ↔ x ∈ D ∨ x ∈ L.
Proof.
  revert D. induction L as [|y L IH]; intros D.
  - simpl. rewrite elem_of_nil. tauto.
  - rewrite lock_all_cons, IH, elem_of_cons. case_bool_decide as Hy.
    + split; [tauto |]. intros [?|[->|?]]; tauto.
    + rewrite elem_of_app, list_elem_of_singleton. tauto.
Qed.

Lemma lock_all_disjoint (D L : list string) :
  NoDup L → (∀ x, x ∈ L → x ∉ D) → lock_all D L = D ++ L.
Proof.
  intros HL. revert D. induction HL as [|x L Hx HL IH]; intros D Hdis.
  - simpl. by rewrite app_nil_r.
  - rewrite lock_all_cons, bool_decide_false by (apply Hdis; left).
    rewrite IH; [by rewrite <- app_assoc |].
    intros y Hy. rewrite elem_of_app, list_elem_of_singleton.
    intros [Hin| ->]; [|done]. revert Hin. apply Hdis. by right.
Qed.

Lemma lock_all_subsumed (D L : list string) :
  (∀ x, x ∈ L → x ∈ D) → lock_all D L = D.
Proof.
  induction L as [|x L IH]; intros Hsub; [done |].
  rewrite lock_all_cons, bool_decide_true by (apply Hsub; left).
  apply IH. intros y Hy. apply Hsub. by right.
Qed.

Lemma NoDup_lock_all (D L : list string) : NoDup D → NoDup (lock_all D L).
Proof.
  revert D. induction L as [|x L IH]; intros D HD; [done |].
  rewrite lock_all_cons. apply IH. case_bool_decide as Hx; [done |].
  apply NoDup_app. split_and!; [done | | apply NoDup_singleton].
  intros y Hy ->%list_elem_of_singleton. done.
Qed.

(** ** Validation as a function *)

Section Validation.

Variable valid : string → bool.

(** A request without repetitions loses exactly its invalid members. *)
Lemma drop_invalid_once_NoDup (seen l : list string) :
  NoDup l → (∀ x, x ∈ l → x ∉ seen) →
  drop_invalid_once valid seen l = filter (λ x, valid x = true) l.
Proof.
  intros Hl. revert seen. induction Hl as [|x l Hx Hl IH]; intros seen Hseen.
  - done.
  - simpl. destruct (valid x) eqn:Hv.
    + rewrite filter_cons_True by done. f_equal. apply IH.
      intros y Hy. apply Hseen. by right.
    + rewrite filter_cons_False by by rewrite Hv.
      rewrite bool_decide_false by (apply Hseen; left).
      apply IH. intros y Hy. rewrite not_elem_of_cons. split.
      * by intros ->.
      * apply Hseen. by right.
Qed.

(** In general one occurrence of each invalid identifier goes, the others
    stay. *)
Lemma count_drop_invalid_once (seen l : list string) (x : string) :
  PyList.count x (drop_invalid_once valid seen l)
  = if valid x then PyList.count x l
    else if bool_decide (x ∈ seen) then PyList.count x l
    else pred (PyList.count x l).
Proof.
  unfold PyList.count. revert seen.
  induction l as [|y l IH]; intros seen.
  - simpl. by repeat case_match.
  - simpl. destruct (decide (y = x)) as [->|Hne].
    + rewrite (filter_cons_True _ x l) by done.
      destruct (valid x) eqn:Hv.
      * rewrite filter_cons_True by done. simpl. by rewrite IH.
      * case_bool_decide as Hs.
        -- rewrite filter_cons_True by done. simpl.
           by rewrite IH, bool_decide_true.
        -- rewrite IH, bool_decide_true by left. done.
    + rewrite (filter_cons_False _ y l) by done.
      destruct (valid y) eqn:Hvy.
      * rewrite filter_cons_False by done. apply IH.
      * case_bool_decide as Hs.
        -- rewrite filter_cons_False by done. apply IH.
        -- rewrite IH. destruct (valid x); [done |].
           case_bool_decide as Hx.
           ++ apply elem_of_cons in Hx as [->|Hx]; [done |].
              by rewrite bool_decide_true.
           ++ rewrite bool_decide_false; [done |].
              intros Hin. apply Hx. by right.
Qed.

(** The loop removes the invalid identifiers one after the other, in the
    order the dictionary hands them out; the result is the same for every
    order. *)
Lemma unlock_each_invalid (seen l ks : list string) :
  NoDup ks →
  (∀ k, k ∈ ks ↔ k ∈ l ∧ valid k = false ∧ k ∉ seen) →
  unlock_each l ks = drop_invalid_once valid seen l.
Proof.
  revert seen ks. induction l as [|x l IH]; intros seen ks Hks Hiff.
  - destruct ks as [|k ks]; [done |].
    destruct (Hiff k) as [[Hk _] _]; [left |]. by apply elem_of_nil in Hk.
  - assert (∀ ks', x ∉ ks' → unlock_each (x :: l) ks' = x :: unlock_each l ks')
      as Hskip.
    { clear. intros ks'. revert l.
      induction ks' as [|k ks' IH']; intros l Hx; [done |].
      apply not_elem_of_cons in Hx as [Hne Hx].
      rewrite !unlock_each_cons, remove_first_cons_ne by done. by apply IH'. }
    simpl. destruct (valid x) eqn:Hv; [|case_bool_decide as Hs].
    + assert (x ∉ ks) as Hx by (intros [_ [? _]]%Hiff; congruence).
      rewrite Hskip by done. f_equal. apply IH; [done |].
      intros k. rewrite Hiff, elem_of_cons. split; [|tauto].
      intros [[->|?] [? ?]]; [congruence | done].
    + assert (x ∉ ks) as Hx by (intros [_ [_ ?]]%Hiff; done).
      rewrite Hskip by done. f_equal. apply IH; [done |].
      intros k. rewrite Hiff, elem_of_cons. split; [|tauto].
      intros [[->|?] [? ?]]; [done | done].
    + assert (x ∈ ks) as Hx by (apply Hiff; split_and!; [left | done | done]).
      apply list_elem_of_split in Hx as (ks1 & ks2 & ->).
      assert (ks1 ++ x :: ks2 ≡ₚ x :: ks1 ++ ks2) as Hp
        by (symmetry; apply Permutation_middle).
      rewrite (unlock_each_permutation _ _ _ Hp), unlock_each_cons,
        remove_first_cons_eq.
      rewrite Hp in Hks. apply NoDup_cons in Hks as [Hx Hks].
      apply IH; [done |]. intros k.
      assert (k ∈ x :: ks1 ++ ks2 ↔ k ∈ x :: l ∧ valid k = false ∧ k ∉ seen)
        as Hk by (rewrite <- Hp; apply Hiff).
      rewrite !elem_of_cons in Hk. rewrite not_elem_of_cons.
      split.
      * intros Hin. assert (k ≠ x) by (by intros ->).
        destruct Hk as [Hk _]. destruct Hk as [[?|?] [? ?]]; [by right | |]; done.
      * intros (Hin & Hvk & Hne & Hns). destruct Hk as [_ Hk].
        destruct Hk as [?|?]; [split_and!; [by right | done | done] | done | done].
Qed.

End Validation.

(** ** The loops of [lock_unlock_panes] *)

Lemma written_add_stdout value (o out : list string) (w : World) :
  written value out (add_stdout o w) = written value (o ++ out) w.
Proof. unfold written, add_stdout, set_prefs. simpl. by rewrite app_assoc. Qed.

Lemma lock_pane_run (x : string) (D : list string) (w : World) :
  ∃ out, lock_pane x D w
         = Return (if bool_decide (x ∈ D) then D else D ++ [x])
             (add_stdout out w).
Proof.
  unfold lock_pane. destruct (bool_decide (x ∈ D)); eexists; reflexivity.
Qed.

Lemma unlock_pane_run (x : string) (D : list string) (w : World) :
  ∃ out, unlock_pane x D w = Return (remove_first x D) (add_stdout out w).
Proof.
  unfold unlock_pane. case_bool_decide as Hx.
  - eexists. erewrite bind_Return by reflexivity.
    unfold list_remove. rewrite (remove_elem x D Hx). reflexivity.
  - exists []. by rewrite add_stdout_nil, remove_first_notin.
Qed.

Lemma lock_loop_run (L D : list string) (w : World) :
  ∃ out, for_each L lock_pane D w = Return (lock_all D L) (add_stdout out w).
Proof.
  revert D w. induction L as [|x L IH]; intros D w.
  - exists []. simpl. by rewrite add_stdout_nil.
  - rewrite lock_all_cons. simpl.
    destruct (lock_pane_run x D w) as [o1 H1].
    erewrite bind_Return by exact H1.
    destruct (IH (if bool_decide (x ∈ D) then D else D ++ [x])
                (add_stdout o1 w)) as [o2 H2].
    exists (o1 ++ o2). by rewrite H2, add_stdout_app.
Qed.

Lemma unlock_loop_run (L D : list string) (w : World) :
  ∃ out, for_each L unlock_pane D w = Return (unlock_each D L) (add_stdout out w).
Proof.
  revert D w. induction L as [|x L IH]; intros D w.
  - exists []. simpl. by rewrite add_stdout_nil.
  - rewrite unlock_each_cons. simpl.
    destruct (unlock_pane_run x D w) as [o1 H1].
    erewrite bind_Return by exact H1.
    destruct (IH (remove_first x D) (add_stdout o1 w)) as [o2 H2].
    exists (o1 ++ o2). by rewrite H2, add_stdout_app.
Qed.

Lemma remove_invalid_items (items : list (string * bool))
    (panes : list string) (w : World) :
  NoDup (invalid_keys items) →
  (∀ k, k ∈ invalid_keys items → k ∈ panes) →
  for_each items
    (λ '(key, value) panes,
       if negb value then
         print (key +:+ " is not a valid bundle identifier, removing");;
         list_remove key panes
       else mret panes) panes w
  = Return (unlock_each panes (invalid_keys items))
      (add_stdout (not_valid_message <$> invalid_keys items) w).
Proof.
  revert panes w. induction items as [|[k [|]] items IH]; intros panes w Hnd Hin.
  - simpl. by rewrite add_stdout_nil.
  - simpl. erewrite bind_Return by reflexivity. by apply IH.
  - change (invalid_keys ((k, false) :: items)) with (k :: invalid_keys items)
      in *.
    apply NoDup_cons in Hnd as [Hk Hnd].
    simpl. erewrite bind_Return; last first.
    { erewrite bind_Return by reflexivity.
      unfold list_remove. rewrite (remove_elem k panes) by (apply Hin; left).
      reflexivity. }
    rewrite IH; [by rewrite add_stdout_app | done |].
    intros k' Hk'. apply elem_of_remove_first_ne; [by intros -> |].
    apply Hin. by right.
Qed.

Section Properties.

Variable iteritems : ∀ V, gmap string V → list (string * V).
Hypothesis iteritems_perm :
  ∀ V (m : gmap string V), iteritems V m ≡ₚ map_to_list m.

Lemma elem_of_values (all_panes : gmap string string) (x : string) :
  x ∈ values iteritems all_panes ↔ is_valid all_panes x = true.
Proof.
  unfold values, is_valid. rewrite bool_decide_eq_true, elem_of_map_img.
  rewrite (iteritems_perm _ all_panes), list_elem_of_fmap. split.
  - intros [[k y] [-> Hk]]. exists k. by apply elem_of_map_to_list.
  - intros [k Hk]. exists (k, x). split; [done |].
    by apply elem_of_map_to_list.
Qed.

Lemma valid_id_lookup (all_panes : gmap string string) (R : list string)
    (x : string) :
  valid_id iteritems all_panes R !! x
  = if bool_decide (x ∈ R) then Some (is_valid all_panes x) else None.
Proof.
  unfold valid_id.
  assert (∀ (d : gmap string bool),
    foldl (λ (d : gmap string bool) pane,
             let d := <[pane:=false]> d in
             if bool_decide (pane ∈ values iteritems all_panes)
             then <[pane:=true]> d else d) d R !! x
    = if bool_decide (x ∈ R) then Some (is_valid all_panes x) else d !! x)
    as Hgen.
  { induction R as [|y R IH]; intros d; [done |].
    simpl. rewrite IH. case_bool_decide as HxR.
    - by rewrite bool_decide_true by by right.
    - destruct (decide (x = y)) as [->|Hne].
      + rewrite (bool_decide_true (y ∈ y :: R)) by left.
        destruct (is_valid all_panes y) eqn:Hv.
        * rewrite bool_decide_true by by apply elem_of_values.
          by rewrite lookup_insert_eq.
        * rewrite bool_decide_false
            by (rewrite elem_of_values; congruence).
          by rewrite lookup_insert_eq.
      + rewrite (bool_decide_false (x ∈ y :: R))
          by (rewrite elem_of_cons; tauto).
        case_bool_decide; by rewrite !lookup_insert_ne. }
  rewrite Hgen. by rewrite lookup_empty.
Qed.

Lemma invalid_keys_valid_id (all_panes : gmap string string)
    (R : list string) :
  NoDup (invalid_keys (iteritems _ (valid_id iteritems all_panes R)))
  ∧ ∀ k, k ∈ invalid_keys (iteritems _ (valid_id iteritems all_panes R))
         ↔ k ∈ R ∧ is_valid all_panes k = false.
Proof.
  set (m := valid_id iteritems all_panes R). split.
  - unfold invalid_keys. apply (sublist_NoDup _ (iteritems _ m).*1).
    + rewrite (iteritems_perm _ m). apply NoDup_fst_map_to_list.
    + apply fmap_sublist, sublist_filter.
  - intros k. unfold invalid_keys.
    rewrite list_elem_of_fmap. split.
    + intros [[k' b] [-> [Hb Hin]%list_elem_of_filter]]. simpl in *. subst b.
      rewrite (iteritems_perm _ m) in Hin.
      apply elem_of_map_to_list in Hin. unfold m in Hin.
      rewrite valid_id_lookup in Hin. case_bool_decide; [|done].
      split; [done | congruence].
    + intros [HkR Hv]. exists (k, false). split; [done |].
      apply list_elem_of_filter. split; [done |].
      rewrite (iteritems_perm _ m). apply elem_of_map_to_list. unfold m.
      rewrite valid_id_lookup, bool_decide_true by done. by rewrite Hv.
Qed.

(** Validation always completes, and what it leaves of the request does not
    depend on the order of the dictionary. *)
Lemma remove_invalid_run (all_panes : gmap string string) (R : list string)
    (w : World) :
  remove_invalid iteritems (valid_id iteritems all_panes R) R w
  = Return (drop_invalid_once (is_valid all_panes) [] R)
      (add_stdout
         (not_valid_message
            <$> invalid_keys (iteritems _ (valid_id iteritems all_panes R))) w).
Proof.
  destruct (invalid_keys_valid_id all_panes R) as [Hnd Hiff].
  unfold remove_invalid. rewrite remove_invalid_items.
  - f_equal. apply unlock_each_invalid; [done |].
    intros k. rewrite Hiff. split; [|tauto].
    intros [? ?]. split_and!; [done | done | apply not_elem_of_nil].
  - done.
  - intros k Hk. by apply Hiff in Hk as [? _].
Qed.

Lemma prefs_written value out w :
  prefs (written value out w)
  = match value with
    | Some v => <["HiddenPreferencePanes" := v]>
                  (<["DisabledPreferencePanes" := v]> (prefs w))
    | None => delete "HiddenPreferencePanes"
                (delete "DisabledPreferencePanes" (prefs w))
    end.
Proof. reflexivity. Qed.

Lemma locked_panes_written value out w :
  locked_panes_of (written value out w) = value.
Proof.
  unfold locked_panes_of. rewrite prefs_written. destruct value.
  - rewrite lookup_insert_ne by done. apply lookup_insert_eq.
  - rewrite lookup_delete_ne by done. apply lookup_delete_eq.
Qed.

Lemma hidden_panes_written value out w :
  hidden_panes_of (written value out w) = value.
Proof.
  unfold hidden_panes_of. rewrite prefs_written. destruct value.
  - apply lookup_insert_eq.
  - apply lookup_delete_eq.
Qed.

Lemma lock_branch_run locked (L : list string) (w : World) :
  ∃ out, lock_branch locked (default [] locked) L w
         = Return () (written (Some (lock_result locked L)) out w).
Proof.
  unfold lock_branch. destruct locked as [D|]; simpl.
  - destruct (lock_loop_run L D w) as [out Hout]. exists out.
    erewrite bind_Return by exact Hout.
    rewrite modify_panes_run, written_add_stdout. by rewrite app_nil_r.
  - exists []. apply modify_panes_run.
Qed.

Lemma unlock_branch_run (D L : list string) (w : World) :
  ∃ out, unlock_branch (Some D) D L w
         = Return () (written (Some (unlock_each D L)) out w).
Proof.
  unfold unlock_branch. destruct (unlock_loop_run L D w) as [out Hout].
  exists out. erewrite bind_Return by exact Hout.
  rewrite modify_panes_run, written_add_stdout. by rewrite app_nil_r.
Qed.

Lemma lock_run prog csv sys other (w : World) :
  ∃ out, lock_unlock_panes iteritems [prog; "--lock"; csv]
           (locked_panes_of w) sys other w
         = Return ()
             (written (Some (lock_result (locked_panes_of w)
                               (validated sys other csv))) out w).
Proof.
  unfold lock_unlock_panes.
  destruct (lock_branch_run (locked_panes_of w) (validated sys other csv)
              (add_stdout
                 (not_valid_message
                    <$> invalid_keys
                          (iteritems _ (valid_id iteritems (other ∪ sys)
                                          (parse_panes csv)))) w))
    as [out Hout].
  eexists. erewrite bind_Return by apply remove_invalid_run.
  rewrite decide_True by done. fold (validated sys other csv).
  rewrite Hout, written_add_stdout. done.
Qed.

Lemma unlock_run prog csv sys other D (w : World) :
  locked_panes_of w = Some D →
  ∃ out, lock_unlock_panes iteritems [prog; "--unlock"; csv]
           (locked_panes_of w) sys other w
         = Return ()
             (written (Some (unlock_each D (validated sys other csv))) out w).
Proof.
  intros HD. unfold lock_unlock_panes. rewrite HD.
  destruct (unlock_branch_run D (validated sys other csv)
              (add_stdout
                 (not_valid_message
                    <$> invalid_keys
                          (iteritems _ (valid_id iteritems (other ∪ sys)
                                          (parse_panes csv)))) w))
    as [out Hout].
  eexists. erewrite bind_Return by apply remove_invalid_run.
  rewrite decide_False, decide_True by done. fold (validated sys other csv).
  change (default [] (Some D)) with D.
  rewrite Hout, written_add_stdout. done.
Qed.

Lemma unlock_run_absent prog csv sys other (w : World) :
  ∃ out, lock_unlock_panes iteritems [prog; "--unlock"; csv] None sys other w
         = SysExit 1 (add_stdout out w).
Proof.
  unfold lock_unlock_panes. eexists.
  erewrite bind_Return by apply remove_invalid_run.
  rewrite decide_False, decide_True by done.
  unfold unlock_branch. erewrite bind_Return by reflexivity.
  unfold sys_exit. rewrite add_stdout_app. done.
Qed.

Lemma count_pos_elem (x : string) (l : list string) :
  0 < PyList.count x l → x ∈ l.
Proof.
  unfold PyList.count. intros Hpos.
  destruct (filter (λ y, y = x) l) as [|y k] eqn:Hf; [simpl in Hpos; lia |].
  assert (y ∈ filter (λ y, y = x) l) as Hy by (rewrite Hf; left).
  by apply list_elem_of_filter in Hy as [-> ?].
Qed.

Lemma elem_of_lock_result locked (L : list string) (x : string) :
  x ∈ lock_result locked L ↔ x ∈ default [] locked ∨ x ∈ L.
Proof.
  destruct locked as [D|]; simpl.
  - apply (elem_of_lock_all x D L).
  - rewrite elem_of_nil. tauto.
Qed.

Lemma lock_result_prefix locked (L : list string) :
  default [] locked `prefix_of` lock_result locked L.
Proof.
  destruct locked as [D|]; simpl.
  - apply (lock_all_prefix D L).
  - apply prefix_nil.
Qed.

Lemma is_valid_img (all_panes : gmap string string) (x : string) :
  is_valid all_panes x = true ↔ x ∈ (map_img all_panes : gset string).
Proof. unfold is_valid. apply bool_decide_eq_true. Qed.

Lemma validated_NoDup (sys other : gmap string string) (csv : string) :
  NoDup (parse_panes csv) →
  validated sys other csv
  = filter (λ x, x ∈ (map_img (other ∪ sys) : gset string)) (parse_panes csv).
Proof.
  intros HR. unfold validated.
  rewrite drop_invalid_once_NoDup; [|done |intros; apply not_elem_of_nil].
  apply list_filter_iff. intros x. apply is_valid_img.
Qed.

(** C8: for a request without repetitions and any two catalogs, a requested
    identifier is marked valid exactly when it is a value of the merged
    catalog; validation completes, reports each invalid identifier once and
    hands on the request without them. *)
Theorem validation_classifies (sys other : gmap string string)
    (R : list string) (w : World) :
  NoDup R →
  (∀ x, x ∈ R →
     is_Some (valid_id iteritems (other ∪ sys) R !! x)
     ∧ (valid_id iteritems (other ∪ sys) R !! x = Some true
        ↔ ∃ name, (other ∪ sys) !! name = Some x))
  ∧ ∃ out,
      remove_invalid iteritems (valid_id iteritems (other ∪ sys) R) R w
      = Return (filter (λ x, x ∈ (map_img (other ∪ sys) : gset string)) R)
          (add_stdout out w)
      ∧ out ≡ₚ not_valid_message
                 <$> filter (λ x, x ∉ (map_img (other ∪ sys) : gset string)) R.
Proof.
  intros HR. split.
  - intros x Hx. rewrite valid_id_lookup, bool_decide_true by done.
    split; [done |].
    rewrite <- (elem_of_map_img (SA:=gset string)), <- is_valid_img.
    split; congruence.
  - eexists. split.
    + rewrite remove_invalid_run. f_equal.
      rewrite drop_invalid_once_NoDup; [|done |intros; apply not_elem_of_nil].
      apply list_filter_iff. intros x. apply is_valid_img.
    + apply fmap_Permutation.
      destruct (invalid_keys_valid_id (other ∪ sys) R) as [Hnd Hiff].
      apply NoDup_Permutation; [done | by apply NoDup_filter |].
      intros x. rewrite Hiff, list_elem_of_filter, <- is_valid_img.
      destruct (is_valid (other ∪ sys) x); split; intros [? ?]; done.
Qed.

(** C10: an identifier that no installed pane declares and that the request
    names at least twice loses one occurrence in validation; the others go
    on, and a lock writes it to the disabled list, appended when it was not
    there. *)
Theorem repeated_invalid_is_locked (prog csv : string)
    (sys other : gmap string string) (x : string) (w : World) :
  x ∉ (map_img (other ∪ sys) : gset string) →
  (2 ≤ PyList.count x (parse_panes csv))%nat →
  (∃ L out,
     remove_invalid iteritems
       (valid_id iteritems (other ∪ sys) (parse_panes csv)) (parse_panes csv) w
     = Return L (add_stdout out w)
     ∧ PyList.count x L = PyList.count x (parse_panes csv) - 1)
  ∧ ∃ l out,
      lock_unlock_panes iteritems [prog; "--lock"; csv] (locked_panes_of w)
        sys other w
      = Return () (written (Some l) out w)
      ∧ x ∈ l
      ∧ (x ∉ default [] (locked_panes_of w) →
         ∃ added, l = default [] (locked_panes_of w) ++ added ∧ x ∈ added).
Proof.
  intros Hx Hcount.
  assert (is_valid (other ∪ sys) x = false) as Hv.
  { apply not_true_is_false. by rewrite is_valid_img. }
  assert (PyList.count x (validated sys other csv)
          = PyList.count x (parse_panes csv) - 1) as Hc.
  { unfold validated. rewrite count_drop_invalid_once, Hv.
    rewrite bool_decide_false by apply not_elem_of_nil. lia. }
  assert (x ∈ validated sys other csv) as HxL.
  { apply count_pos_elem. lia. }
  split.
  - eexists _, _. split; [apply remove_invalid_run | exact Hc].
  - destruct (lock_run prog csv sys other w) as [out Hout].
    eexists _, out. split; [exact Hout |]. split.
    + apply elem_of_lock_result. by right.
    + intros HxD.
      destruct (lock_result_prefix (locked_panes_of w)
                  (validated sys other csv)) as [added Hadded].
      exists added. split; [done |].
      assert (x ∈ default [] (locked_panes_of w) ++ added) as Hin.
      { rewrite <- Hadded. apply elem_of_lock_result. by right. }
      apply elem_of_app in Hin as [?|?]; done.
Qed.

(** C6: with no disabled list in the store, unlock-all and every unlock
    request leave through [sys.exit(1)], and the store and the files are as
    they were. *)
Theorem absent_list_refuses (prog csv : string)
    (sys other : gmap string string) (w : World) :
  locked_panes_of w = None →
  (∃ w', unlock_all (locked_panes_of w) w = SysExit 1 w'
         ∧ prefs w' = prefs w ∧ files w' = files w)
  ∧ (∃ w', lock_unlock_panes iteritems [prog; "--unlock"; csv]
             (locked_panes_of w) sys other w = SysExit 1 w'
           ∧ prefs w' = prefs w ∧ files w' = files w).
Proof.
  intros Hnone. rewrite Hnone. split.
  - eexists. split; [apply unlock_all_absent | done].
  - destruct (unlock_run_absent prog csv sys other w) as [out Hout].
    eexists. split; [exact Hout | done].
Qed.

(** X19: what the script keeps of the invariant of the data model.  For
    a request and a current list without repetitions, a lock whose intended
    set (the current and the valid requested identifiers) is not empty
    writes exactly that set, each identifier once; so does an unlock whose
    intended set (the current identifiers that are not valid requested
    ones) is not empty; and unlock-all writes the absent value. *)
Theorem nonempty_write_reconciled (prog csv : string)
    (sys other : gmap string string) (w : World) :
  NoDup (parse_panes csv) →
  NoDup (default [] (locked_panes_of w)) →
  (default [] (locked_panes_of w)
   ++ filter (λ x, x ∈ (map_img (other ∪ sys) : gset string)) (parse_panes csv)
   ≠ [] →
   ∃ w', lock_unlock_panes iteritems [prog; "--lock"; csv]
           (locked_panes_of w) sys other w = Return () w'
         ∧ reconciled
             (default [] (locked_panes_of w)
              ++ filter (λ x, x ∈ (map_img (other ∪ sys) : gset string))
                   (parse_panes csv))
             (locked_panes_of w'))
  ∧ (is_Some (locked_panes_of w) →
     filter (λ x, ¬ (x ∈ parse_panes csv
                     ∧ x ∈ (map_img (other ∪ sys) : gset string)))
       (default [] (locked_panes_of w)) ≠ [] →
     ∃ w', lock_unlock_panes iteritems [prog; "--unlock"; csv]
             (locked_panes_of w) sys other w = Return () w'
           ∧ reconciled
               (filter (λ x, ¬ (x ∈ parse_panes csv
                                ∧ x ∈ (map_img (other ∪ sys) : gset string)))
                  (default [] (locked_panes_of w)))
               (locked_panes_of w'))
  ∧ (is_Some (locked_panes_of w) →
     ∃ w', unlock_all (locked_panes_of w) w = Return () w'
           ∧ reconciled [] (locked_panes_of w')).
Proof.
  intros HR HD. split_and!.
  - intros Hne. destruct (lock_run prog csv sys other w) as [out Hout].
    eexists. split; [exact Hout |]. rewrite locked_panes_written.
    split; [exact Hne |]. rewrite validated_NoDup by done. split.
    + destruct (locked_panes_of w) as [D|]; simpl in *.
      * by apply NoDup_lock_all.
      * by apply NoDup_filter.
    + intros x. by rewrite elem_of_lock_result, elem_of_app.
  - intros [D HwD] Hne. rewrite HwD in HD, Hne. simpl in HD, Hne.
    destruct (unlock_run prog csv sys other D w HwD) as [out Hout].
    eexists. split; [exact Hout |]. rewrite locked_panes_written, HwD.
    simpl. split; [exact Hne |].
    rewrite unlock_each_NoDup, validated_NoDup by done. split.
    + by apply NoDup_filter.
    + intros x. rewrite !list_elem_of_filter. tauto.
  - intros [D HwD]. rewrite HwD. eexists. split; [apply unlock_all_run |].
    unfold locked_panes_of, set_files. simpl.
    rewrite lookup_delete_ne by done. by rewrite lookup_delete_eq.
Qed.

End Properties.

(** C1, as the script has it: when no locked identifier holds a line feed
    or ends in white space, unlock-all followed by restore writes the list
    that was there before. *)
Theorem restore_after_unlock_all (D : list string) (w : World) :
  locked_panes_of w = Some D →
  Forall (λ s, line_safe s = true) D →
  ∃ w1 w2,
    unlock_all (locked_panes_of w) w = Return () w1
    ∧ locked_panes_of w1 = None
    ∧ restore_all w1 = Return () w2
    ∧ locked_panes_of w2 = Some D
    ∧ hidden_panes_of w2 = Some D.
Proof.
  intros HD Hsafe. rewrite HD.
  set (w1 := set_files (<[restore_path := snapshot_text D]>)
               (written None [unlocked_message] w)).
  assert (files w1 !! restore_path = Some (snapshot_text D)) as Hfile
    by apply lookup_insert_eq.
  exists w1. eexists. split_and!.
  - apply unlock_all_run.
  - unfold locked_panes_of, w1. simpl.
    rewrite lookup_delete_ne by done. apply lookup_delete_eq.
  - apply (restore_all_run _ _ Hfile).
  - rewrite snapshot_lines_text by done.
    unfold locked_panes_of. simpl.
    rewrite lookup_insert_ne by done. apply lookup_insert_eq.
  - rewrite snapshot_lines_text by done.
    unfold hidden_panes_of. simpl. apply lookup_insert_eq.
Qed.

(** C4: the locking branch never takes an entry away: what it writes
    starts with the current list.  With no current list it writes the
    request as given; for a request without repetitions that shares nothing
    with the current list it writes the current list followed by the
    request. *)
Theorem lock_branch_appends (locked : option (list string))
    (L : list string) (w : World) :
  ∃ l out,
    lock_branch locked (default [] locked) L w
    = Return () (written (Some l) out w)
    ∧ default [] locked `prefix_of` l
    ∧ (locked = None → l = L)
    ∧ (NoDup L → (∀ x, x ∈ L → x ∉ default [] locked) →
       l = default [] locked ++ L
       ∧ length l = length (default [] locked) + length L).
Proof.
  destruct (lock_branch_run locked L w) as [out Hout].
  exists (lock_result locked L), out. split_and!.
  - exact Hout.
  - apply lock_result_prefix.
  - by intros ->.
  - intros HL Hdis.
    assert (lock_result locked L = default [] locked ++ L) as ->.
    { destruct locked as [D|]; [|done]. by apply (lock_all_disjoint D L). }
    by rewrite length_app.
Qed.

(** C5: the unlocking branch completes for every request.  What it writes
    is the current list with entries taken out, order kept; identifiers that
    are not in the list can be left out of the request without changing the
    result.  For a request without repetitions that lies within the list
    exactly one entry per requested identifier is gone, and in a list
    without repetitions exactly the requested ones are. *)
Theorem unlock_branch_removes (D L : list string) (w : World) :
  ∃ l out,
    unlock_branch (Some D) D L w = Return () (written (Some l) out w)
    ∧ l `sublist_of` D
    ∧ (∃ out', unlock_branch (Some D) D (filter (λ x, x ∈ D) L) w
               = Return () (written (Some l) out' w))
    ∧ (NoDup L → (∀ x, x ∈ L → x ∈ D) →
       D ≡ₚ L ++ l ∧ length l = length D - length L)
    ∧ (NoDup D → l = filter (λ y, y ∉ L) D).
Proof.
  destruct (unlock_branch_run D L w) as [out Hout].
  exists (unlock_each D L), out. split_and!.
  - exact Hout.
  - apply unlock_each_sublist.
  - destruct (unlock_branch_run D (filter (λ x, x ∈ D) L) w) as [out' Hout'].
    exists out'. by rewrite unlock_each_filter in Hout'.
  - intros HL Hsub. split.
    + by apply unlock_each_perm.
    + by apply unlock_each_length.
  - apply unlock_each_NoDup.
Qed.

(** C9: locking the same request a second time writes the list the first
    lock wrote. *)
Theorem lock_branch_idempotent (locked : option (list string))
    (L : list string) (w : World) :
  ∃ l w1 w2,
    lock_branch locked (default [] locked) L w = Return () w1
    ∧ locked_panes_of w1 = Some l
    ∧ lock_branch (locked_panes_of w1) (default [] (locked_panes_of w1)) L w1
      = Return () w2
    ∧ locked_panes_of w2 = Some l
    ∧ prefs w2 = prefs w1.
Proof.
  destruct (lock_branch_run locked L w) as [out1 H1].
  set (l := lock_result locked L) in *.
  set (w1 := written (Some l) out1 w) in *.
  assert (locked_panes_of w1 = Some l) as Hw1 by apply locked_panes_written.
  assert (lock_result (Some l) L = l) as Hl.
  { apply (lock_all_subsumed l L). intros x Hx.
    apply elem_of_lock_result. by right. }
  destruct (lock_branch_run (Some l) L w1) as [out2 H2].
  rewrite Hl in H2.
  exists l, w1. eexists. rewrite Hw1. split_and!; [done | done | exact H2 | |].
  - apply locked_panes_written.
  - rewrite prefs_written.
    rewrite (insert_id (prefs w1) "DisabledPreferencePanes" l) by exact Hw1.
    apply insert_id. apply (hidden_panes_written (Some l) out1 w).
Qed.

(** C7: unlock-all leaves the restore file with the text of the locked
    panes, whatever the file held before.  A restore from an existing file
    writes its lines to the store and deletes the file, and the restore
    after that leaves through [sys.exit(1)] with nothing changed. *)
Theorem snapshot_saved_then_consumed (D : list string) (contents : string)
    (w w' : World) :
  (∃ w1, unlock_all (Some D) w = Return () w1
         ∧ files w1 = <[restore_path := snapshot_text D]> (files w))
  ∧ (files w' !! restore_path = Some contents →
     ∃ w2 w3,
       restore_all w' = Return () w2
       ∧ locked_panes_of w2 = Some (snapshot_lines contents)
       ∧ hidden_panes_of w2 = Some (snapshot_lines contents)
       ∧ files w2 = delete restore_path (files w')
       ∧ restore_all w2 = SysExit 1 w3
       ∧ prefs w3 = prefs w2 ∧ files w3 = files w2).
Proof.
  split.
  - eexists. split; [apply unlock_all_run | done].
  - intros Hc.
    set (w2 := set_files (delete restore_path)
                 (written (Some (snapshot_lines contents))
                    [restored_message] w')).
    exists w2. eexists. split_and!.
    + by apply restore_all_run.
    + unfold locked_panes_of. simpl.
      rewrite lookup_insert_ne by done. apply lookup_insert_eq.
    + unfold hidden_panes_of. simpl. apply lookup_insert_eq.
    + done.
    + apply restore_all_missing. apply lookup_delete_eq.
    + done.
    + done.
Qed.

(** ** The script at concrete inputs *)

Lemma sorted_items_perm V (m : gmap string V) :
  sorted_items V m ≡ₚ map_to_list m.
Proof. reflexivity. Qed.

(** C1 as stated fails: an identifier that ends in a space comes back from
    the restore file without it. *)
Lemma restore_drops_trailing_space :
  ∃ w1 w2,
    unlock_all (locked_panes_of (world_locking ["a.b "]))
      (world_locking ["a.b "]) = Return () w1
    ∧ restore_all w1 = Return () w2
    ∧ locked_panes_of w2 = Some ["a.b"]
    ∧ locked_panes_of w2 ≠ locked_panes_of (world_locking ["a.b "]).
Proof.
  eexists _, _. split_and!.
  - vm_compute. reflexivity.
  - vm_compute. reflexivity.
  - vm_compute. reflexivity.
  - vm_compute. discriminate.
Qed.

Lemma restore_after_unlock_all_witness :
  locked_panes_of (world_locking two_panes) = Some two_panes
  ∧ Forall (λ s, line_safe s = true) two_panes
  ∧ ∃ w1 w2,
      unlock_all (locked_panes_of (world_locking two_panes))
        (world_locking two_panes) = Return () w1
      ∧ locked_panes_of w1 = None
      ∧ restore_all w1 = Return () w2
      ∧ locked_panes_of w2 = Some two_panes
      ∧ hidden_panes_of w2 = Some two_panes.
Proof.
  assert (locked_panes_of (world_locking two_panes) = Some two_panes) as H1
    by reflexivity.
  assert (Forall (λ s, line_safe s = true) two_panes) as H2
    by (repeat constructor).
  split; [exact H1 |]. split; [exact H2 |].
  exact (restore_after_unlock_all two_panes (world_locking two_panes) H1 H2).
Defined.

(** C2 at the failing input: nothing locked, one installed pane, then
    [--lock], [--unlock] and [--unlockall] of its identifier.  The unlock
    writes the emptied array as it is, so the store holds the empty list
    and not the absent value; the test of unlock-all for "no panes locked"
    compares with [None] only, so unlock-all goes on and ends with exit
    status 0 where the claim has it refuse. *)
Lemma unlock_all_after_last_unlock_completes :
  ∃ w1 w2 w3,
    lock_unlock_panes sorted_items
      [script_name; "--lock"; "com.example.sound"]
      (locked_panes_of empty_world) sound_catalog ∅ empty_world
    = Return () w1
    ∧ locked_panes_of w1 = Some ["com.example.sound"]
    ∧ lock_unlock_panes sorted_items
        [script_name; "--unlock"; "com.example.sound"]
        (locked_panes_of w1) sound_catalog ∅ w1
      = Return () w2
    ∧ locked_panes_of w2 = Some []
    ∧ locked_panes_of w2 ≠ None
    ∧ unlock_all (locked_panes_of w2) w2 = Return () w3
    ∧ exit_status (unlock_all (locked_panes_of w2) w2) = 0.
Proof.
  eexists _, _, _. split_and!.
  - vm_compute. reflexivity.
  - vm_compute. reflexivity.
  - vm_compute. reflexivity.
  - vm_compute. reflexivity.
  - vm_compute. discriminate.
  - vm_compute. reflexivity.
  - vm_compute. reflexivity.
Qed.

(** C3 at the failing input: one pane locked and [--unlock] of its
    identifier.  No intended identifier is left, and the value written is
    the empty list where the invariant has the absent value, the value that
    unlock-all writes for the same set and that every test for "no panes
    locked" compares with. *)
Lemma unlock_writes_empty_list :
  ∃ w',
    lock_unlock_panes sorted_items
      [script_name; "--unlock"; "com.example.sound"]
      (locked_panes_of (world_locking ["com.example.sound"]))
      sound_catalog ∅ (world_locking ["com.example.sound"])
    = Return () w'
    ∧ locked_panes_of w' = Some []
    ∧ ¬ reconciled
          (filter (λ x, x ∉ ["com.example.sound"]) ["com.example.sound"])
          (locked_panes_of w').
Proof.
  eexists. split_and!.
  - vm_compute. reflexivity.
  - vm_compute. reflexivity.
  - intros Hr. vm_compute in Hr. by destruct Hr as [Hne _].
Qed.

(** The other way the invariant of C3 fails: with nothing locked, a request
    that names a valid pane twice is written with both occurrences. *)
Example lock_on_absent_list_keeps_repetitions :
  ∃ w',
    lock_unlock_panes sorted_items
      [script_name; "--lock"; "com.example.sound, com.example.sound"]
      (locked_panes_of empty_world) sound_catalog ∅ empty_world
    = Return () w'
    ∧ locked_panes_of w' = Some ["com.example.sound"; "com.example.sound"].
Proof.
  eexists. split.
  - vm_compute. reflexivity.
  - vm_compute. reflexivity.
Qed.

(** What the defect of C2 and C3 costs: with two panes saved by an
    unlock-all, locking and unlocking one pane leaves the empty list; the
    next unlock-all is not refused, it writes an empty restore file over
    the saved one, and a restore brings back nothing. *)
Example empty_list_overwrites_restore_file :
  ∃ w1 w2 w3 w4 w5,
    unlock_all (locked_panes_of (world_locking two_panes))
      (world_locking two_panes) = Return () w1
    ∧ files w1 !! restore_path = Some (snapshot_text two_panes)
    ∧ lock_unlock_panes sorted_items
        [script_name; "--lock"; "com.example.sound"]
        (locked_panes_of w1) sound_catalog ∅ w1 = Return () w2
    ∧ lock_unlock_panes sorted_items
        [script_name; "--unlock"; "com.example.sound"]
        (locked_panes_of w2) sound_catalog ∅ w2 = Return () w3
    ∧ locked_panes_of w3 = Some []
    ∧ unlock_all (locked_panes_of w3) w3 = Return () w4
    ∧ files w4 !! restore_path = Some EmptyString
    ∧ restore_all w4 = Return () w5
    ∧ locked_panes_of w5 = Some [].
Proof.
  eexists _, _, _, _, _. split_and!; vm_compute; reflexivity.
Qed.

Lemma nonempty_write_reconciled_witness :
  NoDup (parse_panes "com.example.backup, x.y")
  ∧ NoDup (default [] (locked_panes_of (world_locking ["com.example.sound"])))
  ∧ ∃ w',
      lock_unlock_panes sorted_items
        [script_name; "--lock"; "com.example.backup, x.y"]
        (locked_panes_of (world_locking ["com.example.sound"]))
        ({[ "Backup" := "com.example.backup" ]} ∪ sound_catalog) ∅
        (world_locking ["com.example.sound"])
      = Return () w'
      ∧ reconciled ["com.example.sound"; "com.example.backup"]
          (locked_panes_of w').
Proof.
  assert (NoDup (parse_panes "com.example.backup, x.y")) as H1
    by compute_done.
  assert (NoDup (default [] (locked_panes_of
                               (world_locking ["com.example.sound"]))))
    as H2 by compute_done.
  split; [exact H1 |]. split; [exact H2 |].
  destruct (nonempty_write_reconciled sorted_items sorted_items_perm
              script_name "com.example.backup, x.y"
              ({[ "Backup" := "com.example.backup" ]} ∪ sound_catalog) ∅
              (world_locking ["com.example.sound"]) H1 H2)
    as [Hlock _].
  destruct Hlock as (w' & Hrun & Hrec); [discriminate |].
  exists w'. split; [exact Hrun |]. exact Hrec.
Defined.

Lemma lock_branch_appends_witness :
  NoDup ["com.example.backup"]
  ∧ (∀ x, x ∈ ["com.example.backup"] → x ∉ ["com.example.sound"])
  ∧ ∃ out,
      lock_branch (Some ["com.example.sound"]) ["com.example.sound"]
        ["com.example.backup"] empty_world
      = Return () (written (Some two_panes) out empty_world).
Proof.
  assert (NoDup ["com.example.backup"]) as H1 by compute_done.
  assert (∀ x, x ∈ ["com.example.backup"] → x ∉ ["com.example.sound"]) as H2.
  { intros x ->%list_elem_of_singleton Hin.
    apply list_elem_of_singleton in Hin. discriminate Hin. }
  split; [exact H1 |]. split; [exact H2 |].
  destruct (lock_branch_appends (Some ["com.example.sound"])
              ["com.example.backup"] empty_world)
    as (l & out & Hrun & _ & _ & Hdis).
  destruct (Hdis H1 H2) as [Hl _]. exists out.
  rewrite Hl in Hrun. exact Hrun.
Defined.

Lemma unlock_branch_removes_witness :
  NoDup ["com.example.sound"]
  ∧ (∀ x, x ∈ ["com.example.sound"] → x ∈ two_panes)
  ∧ NoDup two_panes
  ∧ ∃ out,
      unlock_branch (Some two_panes) two_panes ["com.example.sound"]
        empty_world
      = Return () (written (Some ["com.example.backup"]) out empty_world).
Proof.
  assert (NoDup ["com.example.sound"]) as H1 by compute_done.
  assert (∀ x, x ∈ ["com.example.sound"] → x ∈ two_panes) as H2.
  { intros x ->%list_elem_of_singleton. left. }
  assert (NoDup two_panes) as H3 by compute_done.
  split; [exact H1 |]. split; [exact H2 |]. split; [exact H3 |].
  destruct (unlock_branch_removes two_panes ["com.example.sound"] empty_world)
    as (l & out & Hrun & _ & _ & _ & Hfilter).
  exists out. rewrite (Hfilter H3) in Hrun. exact Hrun.
Defined.

Lemma absent_list_refuses_witness :
  locked_panes_of empty_world = None
  ∧ exit_status
      (lock_unlock_panes sorted_items
         [script_name; "--unlock"; "com.example.sound"]
         (locked_panes_of empty_world) sound_catalog ∅ empty_world) = 1
  ∧ exit_status (unlock_all (locked_panes_of empty_world) empty_world) = 1.
Proof.
  assert (locked_panes_of empty_world = None) as H by reflexivity.
  split; [exact H |].
  destruct (absent_list_refuses sorted_items sorted_items_perm
              script_name "com.example.sound" sound_catalog ∅ empty_world H)
    as [(w1 & Hall & _) (w2 & Hunlock & _)].
  rewrite Hall, Hunlock. split; reflexivity.
Defined.

Lemma snapshot_saved_then_consumed_witness :
  files (mkWorld ∅ {[ restore_path := snapshot_text two_panes ]} [])
    !! restore_path = Some (snapshot_text two_panes)
  ∧ ∃ w2 w3,
      restore_all (mkWorld ∅ {[ restore_path := snapshot_text two_panes ]} [])
      = Return () w2
      ∧ locked_panes_of w2 = Some two_panes
      ∧ restore_all w2 = SysExit 1 w3.
Proof.
  assert (files (mkWorld ∅ {[ restore_path := snapshot_text two_panes ]} [])
            !! restore_path = Some (snapshot_text two_panes)) as H
    by reflexivity.
  split; [exact H |].
  destruct (snapshot_saved_then_consumed two_panes (snapshot_text two_panes)
              empty_world
              (mkWorld ∅ {[ restore_path := snapshot_text two_panes ]} []))
    as [_ Hrestore].
  destruct (Hrestore H) as (w2 & w3 & Hrun & Hlocked & _ & _ & Hagain & _).
  exists w2, w3. split; [exact Hrun |]. split; [exact Hlocked | exact Hagain].
Defined.

Lemma validation_classifies_witness :
  NoDup ["com.example.sound"; "x.y"]
  ∧ ∃ out,
      remove_invalid sorted_items
        (valid_id sorted_items (∅ ∪ sound_catalog)
           ["com.example.sound"; "x.y"])
        ["com.example.sound"; "x.y"] empty_world
      = Return ["com.example.sound"] (add_stdout out empty_world)
      ∧ out ≡ₚ [not_valid_message "x.y"].
Proof.
  assert (NoDup ["com.example.sound"; "x.y"]) as H by compute_done.
  split; [exact H |].
  destruct (validation_classifies sorted_items sorted_items_perm
              sound_catalog ∅ ["com.example.sound"; "x.y"] empty_world H)
    as [_ (out & Hrun & Hout)].
  exists out. split; [exact Hrun | exact Hout].
Defined.

Lemma repeated_invalid_is_locked_witness :
  ("x.y" ∉ (map_img (∅ ∪ sound_catalog) : gset string))
  ∧ (2 ≤ PyList.count "x.y" (parse_panes "x.y, com.example.sound, x.y"))%nat
  ∧ ∃ l out,
      lock_unlock_panes sorted_items
        [script_name; "--lock"; "x.y, com.example.sound, x.y"]
        (locked_panes_of empty_world) sound_catalog ∅ empty_world
      = Return () (written (Some l) out empty_world)
      ∧ "x.y" ∈ l.
Proof.
  assert ("x.y" ∉ (map_img (∅ ∪ sound_catalog) : gset string)) as H1
    by compute_done.
  assert (2 ≤ PyList.count "x.y" (parse_panes "x.y, com.example.sound, x.y"))%nat
    as H2 by (vm_compute; lia).
  split; [exact H1 |]. split; [exact H2 |].
  destruct (repeated_invalid_is_locked sorted_items sorted_items_perm
              script_name "x.y, com.example.sound, x.y" sound_catalog ∅
              "x.y" empty_world H1 H2)
    as [_ (l & out & Hrun & Hin & _)].
  exists l, out. split; [exact Hrun | exact Hin].
Defined.

(** The run of the witness above: the identifier that is not in the catalog
    ends up in the store. *)
Example repeated_invalid_run :
  ∃ w',
    lock_unlock_panes sorted_items
      [script_name; "--lock"; "x.y, com.example.sound, x.y"]
      (locked_panes_of empty_world) sound_catalog ∅ empty_world
    = Return () w'
    ∧ locked_panes_of w' = Some ["com.example.sound"; "x.y"]
    ∧ stdout w' = [not_valid_message "x.y"].
Proof.
  eexists. split_and!.
  - vm_compute. reflexivity.
  - vm_compute. reflexivity.
  - vm_compute. reflexivity.
Qed.

(** The whole script: as root a lock request goes through the catalog and
    reaches the store; any other user is turned away before anything is
    read or written. *)
Example script_locks_as_root :
  ∃ w',
    script sorted_items root_host
      [script_name; "--lock"; " com.example.sound ,x.y"] empty_world
    = Return () w'
    ∧ locked_panes_of w' = Some ["com.example.sound"]
    ∧ hidden_panes_of w' = Some ["com.example.sound"].
Proof.
  eexists. split_and!.
  - vm_compute. reflexivity.
  - vm_compute. reflexivity.
  - vm_compute. reflexivity.
Qed.

Example script_refuses_ordinary_user :
  script sorted_items user_host [script_name; "--unlockall"]
    (world_locking two_panes)
  = SysExit 1
      (add_stdout ["You must run this tool with sudo or as root!"]
         (world_locking two_panes)).
Proof. vm_compute. reflexivity. Qed.

(** ** What every run of the script leaves alone *)

Lemma add_stdout_written value (out : list string) (w : World) :
  add_stdout out (written value [] w) = written value out w.
Proof. unfold written. by rewrite add_stdout_app. Qed.

Section Respects.

Variable R : World → World → Prop.
Context `{!PreOrder R}.

Hypothesis R_print : ∀ out w, R w (add_stdout out w).
Hypothesis R_modify : ∀ value w, R w (written value [] w).
Hypothesis R_insert : ∀ contents w,
  R w (set_files (<[restore_path := contents]>) w).
Hypothesis R_delete : ∀ w, R w (set_files (delete restore_path) w).

Lemma respects_ret {A} (a : A) : respects R (mret a).
Proof. intros w. split; [reflexivity | simpl; lia]. Qed.

Lemma respects_raise {A} (exn : string) : respects R (raise (A:=A) exn).
Proof. intros w. split; [reflexivity | simpl; lia]. Qed.

Lemma respects_sys_exit {A} (code : nat) :
  (code ≤ 1)%nat → respects R (sys_exit (A:=A) code).
Proof. intros Hc w. split; [reflexivity | exact Hc]. Qed.

Lemma respects_print (s : string) : respects R (print s).
Proof. intros w. split; [apply R_print | simpl; lia]. Qed.

Lemma respects_bind {A B} (m : Py A) (k : A → Py B) :
  respects R m → (∀ a, respects R (k a)) → respects R (m ≫= k).
Proof.
  intros Hm Hk w. destruct (Hm w) as [HR Hc].
  unfold mbind, Py_bind. destruct (m w) as [a w'|c w'|e w']; simpl in *.
  - destruct (Hk a w') as [HR' Hc']. split; [by etrans | done].
  - done.
  - done.
Qed.

Lemma respects_for_each {A S} (l : list A) (body : A → S → Py S) (s : S) :
  (∀ x s, respects R (body x s)) → respects R (for_each l body s).
Proof.
  intros Hbody. revert s. induction l as [|x l IH]; intros s.
  - apply respects_ret.
  - simpl. apply respects_bind; [apply Hbody | intros s'; apply IH].
Qed.

Lemma modify_panes_respects value : respects R (modify_panes value).
Proof.
  intros w. rewrite modify_panes_run. split; [apply R_modify | simpl; lia].
Qed.

Lemma list_remove_respects x l : respects R (list_remove x l).
Proof.
  unfold list_remove. destruct (PyList.remove x l);
    [apply respects_ret | apply respects_raise].
Qed.

Lemma unlock_all_respects locked : respects R (unlock_all locked).
Proof.
  destruct locked as [panes|].
  - intros w. rewrite unlock_all_run. split; [|simpl; lia].
    etrans; [apply (R_modify None w) |].
    etrans; [apply (R_print [unlocked_message]) |].
    rewrite add_stdout_written. apply R_insert.
  - apply respects_bind; [apply respects_print |].
    intros _. by apply respects_sys_exit.
Qed.

Lemma restore_all_respects : respects R restore_all.
Proof.
  intros w. destruct (files w !! restore_path) as [contents|] eqn:Hc.
  - rewrite (restore_all_run contents w Hc). split; [|simpl; lia].
    etrans; [apply (R_modify (Some (snapshot_lines contents)) w) |].
    etrans; [apply (R_print [restored_message]) |].
    rewrite add_stdout_written. apply R_delete.
  - rewrite (restore_all_missing w Hc). split; [apply R_print | done].
Qed.

Lemma lock_branch_respects locked D L : respects R (lock_branch locked D L).
Proof.
  unfold lock_branch. destruct locked; [|apply modify_panes_respects].
  apply respects_bind; [|intros; apply modify_panes_respects].
  apply respects_for_each. intros x s. unfold lock_pane.
  case_bool_decide;
    (apply respects_bind; [apply respects_print | intros; apply respects_ret]).
Qed.

Lemma unlock_branch_respects locked D L :
  respects R (unlock_branch locked D L).
Proof.
  unfold unlock_branch. destruct locked.
  - apply respects_bind; [|intros; apply modify_panes_respects].
    apply respects_for_each. intros x s. unfold unlock_pane.
    case_bool_decide; [|apply respects_ret].
    apply respects_bind; [apply respects_print |].
    intros; apply list_remove_respects.
  - apply respects_bind; [apply respects_print |].
    intros _. by apply respects_sys_exit.
Qed.

Lemma read_bundles_respects bundles : respects R (read_bundles bundles).
Proof.
  unfold read_bundles. apply respects_for_each. intros [directory output] d.
  destruct output; [apply respects_ret | apply respects_raise].
Qed.

Lemma get_bundle_identifiers_respects h :
  respects R (get_bundle_identifiers h).
Proof.
  unfold get_bundle_identifiers.
  apply respects_bind; [apply read_bundles_respects | intros s].
  apply respects_bind; [apply read_bundles_respects | intros o].
  apply respects_ret.
Qed.

Lemma list_current_locked_respects locked :
  respects R (list_current_locked locked).
Proof.
  unfold list_current_locked. destruct locked as [panes|].
  - repeat (apply respects_bind; [apply respects_print | intros _]).
    apply respects_bind; [|intros _; apply respects_print].
    apply respects_for_each. intros x s. apply respects_print.
  - apply respects_bind; [apply respects_print |].
    intros _. by apply respects_sys_exit.
Qed.

Lemma sanity_check_respects h : respects R (sanity_check h).
Proof.
  unfold sanity_check. case_decide; [apply respects_ret |].
  destruct (console_defaults h); [|apply respects_raise].
  apply respects_bind.
  - case_match; apply respects_ret.
  - intros _. case_match; apply respects_ret.
Qed.

Variable iteritems : ∀ V, gmap string V → list (string * V).

Lemma list_bundle_identifiers_respects sys other :
  respects R (list_bundle_identifiers iteritems sys other).
Proof.
  unfold list_bundle_identifiers.
  repeat (apply respects_bind; [apply respects_print | intros _]).
  apply respects_bind.
  { apply respects_for_each. intros [k v] s. apply respects_print. }
  intros _.
  repeat (apply respects_bind; [apply respects_print | intros _]).
  apply respects_bind; [|intros _; apply respects_print].
  apply respects_for_each. intros [k v] s. apply respects_print.
Qed.

Lemma remove_invalid_respects valid panes :
  respects R (remove_invalid iteritems valid panes).
Proof.
  unfold remove_invalid. apply respects_for_each. intros [k v] s.
  destruct v; simpl; [apply respects_ret |].
  apply respects_bind; [apply respects_print |].
  intros _. apply list_remove_respects.
Qed.

Lemma lock_unlock_panes_respects argv locked sys other :
  respects R (lock_unlock_panes iteritems argv locked sys other).
Proof.
  unfold lock_unlock_panes.
  destruct argv as [|a0 [|a1 [|a2 [|a3 rest]]]];
    try (apply respects_bind; [apply respects_print |];
         intros _; by apply respects_sys_exit).
  apply respects_bind; [apply remove_invalid_respects | intros panes].
  case_decide; [apply lock_branch_respects |].
  case_decide; [apply unlock_branch_respects | apply respects_ret].
Qed.

Lemma main_respects h argv locked :
  respects R (main iteritems h argv locked).
Proof.
  unfold main. destruct (negb (Nat.eqb (getuid h) 0)).
  { apply respects_bind; [apply respects_print |].
    intros _. by apply respects_sys_exit. }
  destruct argv as [|a0 [|command rest]].
  - apply respects_raise.
  - apply respects_bind; [apply respects_print |].
    intros _. apply respects_sys_exit. lia.
  - repeat case_decide.
    + apply respects_bind; [apply get_bundle_identifiers_respects |].
      intros [s o]. apply list_bundle_identifiers_respects.
    + apply list_current_locked_respects.
    + apply respects_bind; [apply get_bundle_identifiers_respects |].
      intros [s o].
      apply respects_bind; [apply sanity_check_respects | intros _].
      apply lock_unlock_panes_respects.
    + apply respects_bind; [apply sanity_check_respects | intros _].
      apply restore_all_respects.
    + apply respects_bind; [apply sanity_check_respects | intros _].
      apply unlock_all_respects.
    + apply respects_print.
Qed.

Lemma script_respects h argv : respects R (script iteritems h argv).
Proof.
  unfold script. apply respects_bind; [|intros; apply main_respects].
  intros w. split; [reflexivity | simpl; lia].
Qed.

End Respects.

Global Instance frame_preorder : PreOrder frame.
Proof.
  split.
  - intros w. by split_and!.
  - intros w1 w2 w3 (Hp & Hf & Ho) (Hp' & Hf' & Ho'). split_and!.
    + intros key H1 H2. by rewrite Hp', Hp.
    + intros path H1. by rewrite Hf', Hf.
    + by etrans.
Qed.

Global Instance keeps_mirrored_preorder : PreOrder keeps_mirrored.
Proof.
  split.
  - by intros w Hw.
  - intros w1 w2 w3 H12 H23 Hw. by apply H23, H12.
Qed.

Global Instance same_store_preorder : PreOrder same_store.
Proof.
  split.
  - by intros w.
  - intros w1 w2 w3 [Hp Hf] [Hp' Hf']. split; congruence.
Qed.

Lemma frame_written value (w : World) : frame w (written value [] w).
Proof.
  split_and!.
  - intros key H1 H2. rewrite prefs_written. destruct value.
    + by rewrite !lookup_insert_ne.
    + by rewrite !lookup_delete_ne.
  - done.
  - by apply prefix_app_r.
Qed.

(** X1: a user other than root is turned away whatever the arguments: the
    script prints its message and exits with status 1, and neither the
    preferences nor the files have changed. *)
Theorem script_refuses_non_root
    (iteritems : ∀ V, gmap string V → list (string * V))
    (h : Host) (argv : list string) (w : World) :
  getuid h ≠ 0 →
  script iteritems h argv w
  = SysExit 1 (add_stdout ["You must run this tool with sudo or as root!"] w).
Proof.
  intros Huid. unfold script. erewrite bind_Return by reflexivity.
  unfold main. destruct (Nat.eqb_spec (getuid h) 0) as [?|_]; [done |].
  reflexivity.
Qed.

(** X2: whatever the host, the arguments and the outcome, a run never
    touches a preference key other than [DisabledPreferencePanes] and
    [HiddenPreferencePanes] nor a file other than the restore file, never
    takes back what was printed, and ends with exit status 0 or 1. *)
Theorem script_frame
    (iteritems : ∀ V, gmap string V → list (string * V))
    (h : Host) (argv : list string) (w : World) :
  frame w (final (script iteritems h argv w))
  ∧ (exit_status (script iteritems h argv w) ≤ 1)%nat.
Proof.
  apply (script_respects frame); clear.
  - intros out w. split_and!; [done | done | by apply prefix_app_r].
  - apply frame_written.
  - intros contents w. split_and!; [done | | done].
    intros path Hpath. simpl. by rewrite lookup_insert_ne.
  - intros w. split_and!; [done | | done].
    intros path Hpath. simpl. by rewrite lookup_delete_ne.
Qed.

(** X3: the two keys stay in step: when the hidden panes are the disabled
    panes before a run they are so after it, whatever the arguments and the
    outcome. *)
Theorem script_keeps_mirrored
    (iteritems : ∀ V, gmap string V → list (string * V))
    (h : Host) (argv : list string) (w : World) :
  mirrored w → mirrored (final (script iteritems h argv w)).
Proof.
  intros Hw.
  assert (respects keeps_mirrored (script iteritems h argv)) as Hres.
  { apply script_respects.
    - apply _.
    - intros out w' Hw'. exact Hw'.
    - intros value w' _. unfold mirrored.
      by rewrite hidden_panes_written, locked_panes_written.
    - intros contents w' Hw'. exact Hw'.
    - intros w' Hw'. exact Hw'. }
  by apply Hres.
Qed.

(** X4: a run whose command is not one of [--unlock], [--lock], [--restore]
    and [--unlockall] (listing, help, an unknown command, no command at
    all) changes neither the preferences nor the files. *)
Theorem script_reads_only
    (iteritems : ∀ V, gmap string V → list (string * V))
    (h : Host) (argv : list string) (w : World) :
  (∀ command, argv !! 1 = Some command → command ∉ writing_commands) →
  same_store w (final (script iteritems h argv w)).
Proof.
  intros Hcmd.
  assert (∀ out w, same_store w (add_stdout out w)) as Hprint by done.
  assert (∀ s, respects same_store (print s)) as Hp
    by (intros s; by apply respects_print).
  assert (∀ A code, (code ≤ 1)%nat → respects same_store (sys_exit (A:=A) code))
    as Hexit by (intros A code Hc; apply respects_sys_exit; [apply _ | done]).
  assert (∀ A B (m : Py A) (k : A → Py B),
            respects same_store m → (∀ a, respects same_store (k a)) →
            respects same_store (m ≫= k)) as Hbind
    by (intros A B m k; apply respects_bind; apply _).
  assert (respects same_store (script iteritems h argv)) as Hres;
    [|apply Hres].
  unfold script. apply Hbind; [intros w'; split; [done | simpl; lia] |].
  intros locked.
  unfold main. destruct (negb (Nat.eqb (getuid h) 0)).
  { apply Hbind; [apply Hp |]. intros _. by apply Hexit. }
  destruct argv as [|a0 [|command rest]].
  - apply respects_raise. apply _.
  - apply Hbind; [apply Hp |]. intros _. apply Hexit. lia.
  - specialize (Hcmd command eq_refl). unfold writing_commands in Hcmd.
    rewrite !not_elem_of_cons in Hcmd.
    destruct Hcmd as (H1 & H2 & H3 & H4 & _).
    repeat case_decide; try tauto.
    + apply Hbind.
      * apply get_bundle_identifiers_respects. apply _.
      * intros [s o]. apply list_bundle_identifiers_respects; [apply _ | done].
    + apply list_current_locked_respects; [apply _ | done].
    + apply Hp.
Qed.

(** ** More on strings *)

Lemma has_newline_rstrip_by (p : ascii → bool) (s : string) :
  has_newline s = false → has_newline (PyStr.rstrip_by p s) = false.
Proof.
  induction s as [|c s IH]; simpl; [done |].
  intros [Hc Hs]%orb_false_iff. specialize (IH Hs).
  destruct (PyStr.rstrip_by p s) as [|c' r].
  - destruct (p c); simpl; [done | by rewrite Hc].
  - simpl in *. by rewrite Hc, IH.
Qed.

Lemma ends_in_space_rstrip (s : string) :
  ends_in_space (PyStr.rstrip s) = false.
Proof.
  unfold PyStr.rstrip. induction s as [|c s IH]; simpl; [done |].
  destruct (PyStr.rstrip_by PyStr.isspace s) as [|c' r].
  - destruct (PyStr.isspace c) eqn:Hc; simpl; [done | by rewrite Hc].
  - exact IH.
Qed.

Lemma ends_in_space_lstrip_by (p : ascii → bool) (s : string) :
  ends_in_space s = false → ends_in_space (PyStr.lstrip_by p s) = false.
Proof.
  induction s as [|c s IH]; [done |]. intros Hs. simpl.
  destruct (p c); [|done]. apply IH. by destruct s.
Qed.

Lemma lstrip_by_idemp (p : ascii → bool) (s : string) :
  PyStr.lstrip_by p (PyStr.lstrip_by p s) = PyStr.lstrip_by p s.
Proof.
  induction s as [|c s IH]; [done |]. simpl.
  destruct (p c) eqn:Hc; [done |]. simpl. by rewrite Hc.
Qed.

Lemma ends_in_space_strip (s : string) : ends_in_space (PyStr.strip s) = false.
Proof. apply ends_in_space_lstrip_by, ends_in_space_rstrip. Qed.

Lemma strip_idemp (s : string) : PyStr.strip (PyStr.strip s) = PyStr.strip s.
Proof.
  unfold PyStr.strip at 1. unfold PyStr.rstrip.
  rewrite rstrip_by_fixed by apply ends_in_space_strip.
  apply lstrip_by_idemp.
Qed.

Lemma readlines_shape (contents line : string) :
  line ∈ PyStr.readlines contents →
  ∃ s, has_newline s = false ∧ (line = s ∨ line = s +:+ PyStr.nl).
Proof.
  revert line. induction contents as [|c contents IH]; intros line Hline.
  - by apply elem_of_nil in Hline.
  - simpl in Hline. destruct (Ascii.eqb c PyStr.newline) eqn:Hc.
    + apply elem_of_cons in Hline as [->|Hline]; [|by apply IH].
      exists EmptyString. split; [done | by right].
    + destruct (PyStr.readlines contents) as [|l ls].
      * apply list_elem_of_singleton in Hline as ->.
        exists (String c EmptyString). split; [|by left].
        simpl. by rewrite Hc.
      * apply elem_of_cons in Hline as [->|Hline].
        -- destruct (IH l) as (s & Hs & Hl); [left |].
           exists (String c s). split; [simpl; by rewrite Hc, Hs |].
           destruct Hl as [->| ->]; [by left | by right].
        -- apply IH. by right.
Qed.

Lemma snapshot_lines_safe (contents : string) :
  Forall (λ s, line_safe s = true) (snapshot_lines contents).
Proof.
  apply Forall_forall. intros x Hx. unfold snapshot_lines in Hx.
  apply list_elem_of_fmap in Hx as (line & -> & Hline).
  apply readlines_shape in Hline as (s & Hs & Hline).
  unfold line_safe. rewrite ends_in_space_rstrip, andb_true_r.
  apply negb_true_iff.
  destruct Hline as [->| ->].
  - by apply has_newline_rstrip_by.
  - unfold PyStr.rstrip. rewrite rstrip_by_append by done.
    by apply has_newline_rstrip_by.
Qed.

(** X5: whatever the restore file holds, the identifiers a restore writes
    hold no line feed and end in no white space; so unlock-all followed by
    restore brings back exactly the list a restore has written. *)
Theorem restore_writes_line_safe (contents : string) (w : World) :
  files w !! restore_path = Some contents →
  ∃ l w1 w2 w3,
    restore_all w = Return () w1
    ∧ locked_panes_of w1 = Some l
    ∧ Forall (λ s, line_safe s = true) l
    ∧ unlock_all (locked_panes_of w1) w1 = Return () w2
    ∧ restore_all w2 = Return () w3
    ∧ locked_panes_of w3 = Some l.
Proof.
  intros Hc.
  set (l := snapshot_lines contents).
  set (w1 := set_files (delete restore_path)
               (written (Some l) [restored_message] w)).
  assert (locked_panes_of w1 = Some l) as Hw1.
  { unfold locked_panes_of. simpl.
    rewrite lookup_insert_ne by done. apply lookup_insert_eq. }
  assert (Forall (λ s, line_safe s = true) l) as Hsafe
    by apply snapshot_lines_safe.
  set (w2 := set_files (<[restore_path := snapshot_text l]>)
               (written None [unlocked_message] w1)).
  assert (files w2 !! restore_path = Some (snapshot_text l)) as Hfile
    by apply lookup_insert_eq.
  exists l, w1, w2. eexists. split_and!.
  - by apply restore_all_run.
  - done.
  - done.
  - rewrite Hw1. apply unlock_all_run.
  - apply (restore_all_run _ _ Hfile).
  - rewrite snapshot_lines_text by done.
    unfold locked_panes_of. simpl.
    rewrite lookup_insert_ne by done. apply lookup_insert_eq.
Qed.

(** X6: a second unlock-all right after the first finds nothing locked: it
    exits with status 1 and the restore file of the first is still there. *)
Theorem unlock_all_twice_keeps_snapshot (D : list string) (w : World) :
  ∃ w1 w2,
    unlock_all (Some D) w = Return () w1
    ∧ unlock_all (locked_panes_of w1) w1 = SysExit 1 w2
    ∧ files w2 !! restore_path = Some (snapshot_text D)
    ∧ prefs w2 = prefs w1.
Proof.
  eexists _, _. split; [apply unlock_all_run |].
  assert (locked_panes_of
            (set_files (<[restore_path := snapshot_text D]>)
               (written None [unlocked_message] w)) = None) as ->.
  { unfold locked_panes_of. simpl.
    rewrite lookup_delete_ne by done. apply lookup_delete_eq. }
  split; [apply unlock_all_absent |].
  split; [apply lookup_insert_eq | done].
Qed.

Lemma remove_first_app_notin (x : string) (D K : list string) :
  x ∉ D → remove_first x (D ++ K) = D ++ remove_first x K.
Proof.
  induction D as [|y D IH]; intros Hx; [done |].
  apply not_elem_of_cons in Hx as [Hne Hx]. simpl.
  rewrite remove_first_cons_ne by done. by rewrite IH.
Qed.

Lemma unlock_each_app_fresh (D L : list string) :
  (∀ x, x ∈ L → x ∉ D) → unlock_each (D ++ L) L = D.
Proof.
  induction L as [|x L IH]; intros Hdis.
  - simpl. by rewrite app_nil_r.
  - rewrite unlock_each_cons, remove_first_app_notin by (apply Hdis; left).
    rewrite remove_first_cons_eq. apply IH.
    intros y Hy. apply Hdis. by right.
Qed.

(** X7: locking a request without repetitions that shares nothing with
    the current value and then unlocking the same request writes back a
    list that is there: unlocking undoes locking on every present list.
    From the absent value the two steps end in the empty list, not in the
    absent value. *)
Theorem unlock_after_lock_restores (locked : option (list string))
    (L : list string) (w : World) :
  NoDup L → (∀ x, x ∈ L → x ∉ default [] locked) →
  ∃ w1 w2,
    lock_branch locked (default [] locked) L w = Return () w1
    ∧ unlock_branch (locked_panes_of w1) (default [] (locked_panes_of w1))
        L w1 = Return () w2
    ∧ locked_panes_of w2 = Some (default [] locked)
    ∧ (locked = None → locked_panes_of w2 ≠ locked).
Proof.
  intros HL Hdis.
  destruct (lock_branch_run locked L w) as [out1 H1].
  assert (lock_result locked L = default [] locked ++ L) as Hres.
  { destruct locked as [D|]; [|done]. by apply (lock_all_disjoint D L). }
  rewrite Hres in H1.
  set (w1 := written (Some (default [] locked ++ L)) out1 w) in *.
  assert (locked_panes_of w1 = Some (default [] locked ++ L)) as Hw1
    by apply locked_panes_written.
  destruct (unlock_branch_run (default [] locked ++ L) L w1) as [out2 H2].
  rewrite unlock_each_app_fresh in H2 by done.
  exists w1. eexists. rewrite Hw1. split_and!; [done | exact H2 | |].
  - apply locked_panes_written.
  - intros ->. by rewrite locked_panes_written.
Qed.

(** ** Listing the locked panes *)

Lemma print_each_run (panes : list string) (w : World) :
  for_each panes (λ pane _, print pane) () w = Return () (add_stdout panes w).
Proof.
  revert w. induction panes as [|pane panes IH]; intros w.
  - simpl. by rewrite add_stdout_nil.
  - simpl. erewrite bind_Return by reflexivity.
    rewrite IH, add_stdout_app. done.
Qed.

(** X8: [--locked] prints the stored panes in their order between its
    three header lines and a closing rule and completes, also for a stored
    list that is empty; only when the key is absent it prints that nothing
    is locked and exits with status 1.  Nothing else changes. *)
Theorem list_current_locked_prints (locked : option (list string))
    (w : World) :
  list_current_locked locked w
  = match locked with
    | Some panes => Return () (add_stdout (locked_table panes) w)
    | None =>
        SysExit 1 (add_stdout ["No preference panes are currently locked"] w)
    end.
Proof.
  destruct locked as [panes|]; [|reflexivity].
  unfold list_current_locked.
  do 3 erewrite bind_Return by reflexivity.
  erewrite bind_Return by apply print_each_run.
  unfold print. rewrite !add_stdout_app. done.
Qed.

(** ** Reading the installed panes *)

Lemma read_bundles_fold (good : list (string * string))
    (panes : gmap string string) (w : World) :
  for_each (readable good)
    (λ '(directory, output) (panes : gmap string string),
       match output with
       | Some identifier =>
           mret (<[hd EmptyString (PyStr.split "." directory)
                   := PyStr.rstrip identifier]> panes)
       | None => raise "CalledProcessError"
       end) panes w
  = Return (foldl (λ panes '(directory, output),
                     <[short_name directory := PyStr.rstrip output]> panes)
              panes good) w.
Proof.
  revert panes. induction good as [|[directory output] good IH]; intros panes.
  - reflexivity.
  - simpl. erewrite bind_Return by reflexivity. apply IH.
Qed.

Lemma read_bundles_fails (bundles : list (string * option string))
    (directory : string) (panes : gmap string string) (w : World) :
  (directory, None) ∈ bundles →
  for_each bundles
    (λ '(directory, output) (panes : gmap string string),
       match output with
       | Some identifier =>
           mret (<[hd EmptyString (PyStr.split "." directory)
                   := PyStr.rstrip identifier]> panes)
       | None => raise "CalledProcessError"
       end) panes w
  = Raise "CalledProcessError" w.
Proof.
  revert panes. induction bundles as [|[d [out|]] bundles IH]; intros panes Hin.
  - by apply elem_of_nil in Hin.
  - apply elem_of_cons in Hin as [Heq|Hin]; [done |].
    simpl. erewrite bind_Return by reflexivity. by apply IH.
  - reflexivity.
Qed.

Lemma catalog_of_snoc (good : list (string * string))
    (directory output : string) :
  catalog_of (good ++ [(directory, output)])
  = <[short_name directory := PyStr.rstrip output]> (catalog_of good).
Proof. unfold catalog_of. by rewrite foldl_snoc. Qed.

Lemma catalog_of_last (before after : list (string * string))
    (directory output : string) :
  (∀ d o, (d, o) ∈ after → short_name d ≠ short_name directory) →
  catalog_of (before ++ (directory, output) :: after)
    !! short_name directory = Some (PyStr.rstrip output).
Proof.
  induction after as [|[d o] after IH] using rev_ind; intros Hlater.
  - rewrite catalog_of_snoc. apply lookup_insert_eq.
  - rewrite app_comm_cons, app_assoc, catalog_of_snoc.
    rewrite lookup_insert_ne.
    + apply IH. intros d' o' Hin. apply (Hlater d' o').
      apply elem_of_app. by left.
    + apply (Hlater d o). apply elem_of_app. right. left.
Qed.

Lemma catalog_of_sound (good : list (string * string)) (name x : string) :
  catalog_of good !! name = Some x →
  ∃ directory output,
    (directory, output) ∈ good
    ∧ name = short_name directory ∧ x = PyStr.rstrip output.
Proof.
  induction good as [|[d o] good IH] using rev_ind; intros Hx.
  - change (catalog_of []) with (∅ : gmap string string) in Hx.
    by rewrite lookup_empty in Hx.
  - rewrite catalog_of_snoc in Hx.
    destruct (decide (short_name d = name)) as [<-|Hne].
    + rewrite lookup_insert_eq in Hx. injection Hx as <-.
      exists d, o. split; [|done]. apply elem_of_app. right. left.
    + rewrite lookup_insert_ne in Hx by done.
      destruct (IH Hx) as (d' & o' & Hin & ? & ?). exists d', o'.
      split; [|done]. apply elem_of_app. by left.
Qed.

(** X9: a directory all of whose bundles can be read gives a dictionary
    without touching the world: a bundle that no later bundle shares its
    short name with is filed under that name with its identifier stripped
    of trailing white space, and every entry comes from some bundle.  A
    later bundle with the same short name replaces an earlier one. *)
Theorem read_bundles_catalog (good : list (string * string)) (w : World) :
  read_bundles (readable good) w = Return (catalog_of good) w
  ∧ (∀ before directory output after,
       good = before ++ (directory, output) :: after →
       (∀ d o, (d, o) ∈ after → short_name d ≠ short_name directory) →
       catalog_of good !! short_name directory = Some (PyStr.rstrip output))
  ∧ (∀ name x,
       catalog_of good !! name = Some x →
       ∃ directory output,
         (directory, output) ∈ good
         ∧ name = short_name directory ∧ x = PyStr.rstrip output).
Proof.
  split_and!.
  - apply read_bundles_fold.
  - intros before directory output after -> Hlater.
    by apply catalog_of_last.
  - apply catalog_of_sound.
Qed.

(** X10: when [defaults read] fails for one bundle of either directory,
    [get_bundle_identifiers] ends in [CalledProcessError] and the world is
    as it was. *)
Theorem get_bundle_identifiers_fails (h : Host) (directory : string)
    (w : World) :
  (directory, None) ∈ system_bundles h ++ library_bundles h →
  get_bundle_identifiers h w = Raise "CalledProcessError" w.
Proof.
  intros Hin. unfold get_bundle_identifiers.
  assert (∀ bundles w,
            (∃ panes, read_bundles bundles w = Return panes w)
            ∨ read_bundles bundles w = Raise "CalledProcessError" w) as Hcases.
  { intros bundles w'. unfold read_bundles. generalize (∅ : gmap string string).
    induction bundles as [|[d [out|]] bundles IH]; intros panes.
    - left. by eexists.
    - simpl. erewrite bind_Return by reflexivity. apply IH.
    - by right. }
  apply elem_of_app in Hin as [Hin|Hin].
  - unfold mbind, Py_bind. unfold read_bundles at 1.
    by rewrite (read_bundles_fails _ directory).
  - destruct (Hcases (system_bundles h) w) as [[panes Hs]|Hs].
    + erewrite bind_Return by exact Hs.
      unfold mbind, Py_bind. unfold read_bundles.
      by rewrite (read_bundles_fails _ directory).
    + unfold mbind, Py_bind. by rewrite Hs.
Qed.

Lemma get_bundle_identifiers_outcome (h : Host) (w : World) :
  (∃ panes, get_bundle_identifiers h w = Return panes w)
  ∨ get_bundle_identifiers h w = Raise "CalledProcessError" w.
Proof.
  assert (∀ bundles,
            (∃ panes, read_bundles bundles w = Return panes w)
            ∨ read_bundles bundles w = Raise "CalledProcessError" w) as Hcases.
  { intros bundles. unfold read_bundles. generalize (∅ : gmap string string).
    induction bundles as [|[d [out|]] bundles IH]; intros panes.
    - left. by eexists.
    - simpl. erewrite bind_Return by reflexivity. apply IH.
    - by right. }
  unfold get_bundle_identifiers.
  destruct (Hcases (system_bundles h)) as [[s Hs]|Hs].
  - erewrite bind_Return by exact Hs.
    destruct (Hcases (library_bundles h)) as [[o Ho]|Ho].
    + left. eexists. erewrite bind_Return by exact Ho. reflexivity.
    + right. unfold mbind, Py_bind. by rewrite Ho.
  - right. unfold mbind, Py_bind. by rewrite Hs.
Qed.

(** X11: when the console user is not root and [defaults read] fails for
    that user, root's run of a writing command ends in [CalledProcessError]
    before anything is printed or written. *)
Theorem script_aborts_when_defaults_read_fails
    (iteritems : ∀ V, gmap string V → list (string * V))
    (h : Host) (argv : list string) (command : string) (w : World) :
  getuid h = 0 →
  argv !! 1 = Some command →
  command ∈ writing_commands →
  PyStr.strip_quotes (PyStr.rstrip (console_stat h)) ≠ "root" →
  console_defaults h = None →
  script iteritems h argv w = Raise "CalledProcessError" w.
Proof.
  intros Huid Hargv Hcmd Hroot Hdefaults.
  assert (∀ A (k : unit → Py A),
            (sanity_check h ≫= k) w = Raise "CalledProcessError" w) as Hsanity.
  { intros A k. unfold mbind, Py_bind, sanity_check.
    rewrite decide_False by done. by rewrite Hdefaults. }
  unfold script. erewrite bind_Return by reflexivity.
  unfold main. rewrite Huid. simpl.
  destruct argv as [|a0 [|c rest]]; [done | done |].
  injection Hargv as ->. unfold writing_commands in Hcmd.
  rewrite !elem_of_cons, elem_of_nil in Hcmd.
  assert (∀ (k : gmap string string * gmap string string → Py unit),
            (∀ p, k p w = Raise "CalledProcessError" w) →
            (get_bundle_identifiers h ≫= k) w = Raise "CalledProcessError" w)
    as Hbundles.
  { intros k Hk.
    destruct (get_bundle_identifiers_outcome h w) as [[p Hg]|Hg].
    - erewrite bind_Return by exact Hg. apply Hk.
    - unfold mbind, Py_bind. by rewrite Hg. }
  destruct Hcmd as [->|[->|[->|[->|[]]]]];
    repeat case_decide; try discriminate;
    try (by exfalso; intuition discriminate);
    try apply Hsanity;
    (apply Hbundles; intros [s o]; apply Hsanity).
Qed.

(** ** More on validation and listing, for every order of the dictionaries *)

Lemma drop_invalid_once_sublist (valid : string → bool)
    (seen l : list string) :
  drop_invalid_once valid seen l `sublist_of` l.
Proof.
  revert seen. induction l as [|x l IH]; intros seen; [done |]. simpl.
  destruct (valid x); [by apply sublist_skip |].
  case_bool_decide; [by apply sublist_skip | by apply sublist_cons].
Qed.

Lemma filter_valid_drop_invalid_once (valid : string → bool)
    (seen l : list string) :
  filter (λ x, valid x = true) (drop_invalid_once valid seen l)
  = filter (λ x, valid x = true) l.
Proof.
  revert seen. induction l as [|x l IH]; intros seen; [done |]. simpl.
  destruct (valid x) eqn:Hv.
  - rewrite !filter_cons_True by done. by rewrite IH.
  - rewrite (filter_cons_False _ x l) by by rewrite Hv.
    case_bool_decide; [|apply IH].
    rewrite filter_cons_False by by rewrite Hv. apply IH.
Qed.


Section MoreProperties.

Variable iteritems : ∀ V, gmap string V → list (string * V).
Hypothesis iteritems_perm :
  ∀ V (m : gmap string V), iteritems V m ≡ₚ map_to_list m.

Lemma lock_run_reports prog csv sys other (w : World) :
  ∃ out, lock_unlock_panes iteritems [prog; "--lock"; csv]
           (locked_panes_of w) sys other w
         = Return ()
             (written (Some (lock_result (locked_panes_of w)
                               (validated sys other csv)))
                ((not_valid_message
                    <$> invalid_keys
                          (iteritems _ (valid_id iteritems (other ∪ sys)
                                          (parse_panes csv)))) ++ out) w).
Proof.
  unfold lock_unlock_panes.
  destruct (lock_branch_run (locked_panes_of w) (validated sys other csv)
              (add_stdout
                 (not_valid_message
                    <$> invalid_keys
                          (iteritems _ (valid_id iteritems (other ∪ sys)
                                          (parse_panes csv)))) w))
    as [out Hout].
  exists out.
  erewrite bind_Return
    by apply (remove_invalid_run iteritems iteritems_perm).
  rewrite decide_True by done. fold (validated sys other csv).
  rewrite Hout, written_add_stdout. done.
Qed.

(** X12: a lock knows the system panes only through the dictionary that
    the third-party dictionary has been written over.  The identifier of a
    system pane that shares its short name with a third-party pane, and
    that no other pane declares, is reported as not valid and a lock
    request for it adds nothing to the list; the identifier of the
    third-party pane under that name is locked. *)
Theorem shadowed_system_pane_rejected (prog csv csv' name x y : string)
    (sys other : gmap string string) (w : World) :
  sys !! name = Some x →
  other !! name = Some y →
  (∀ n, other !! n ≠ Some x) →
  (∀ n, n ≠ name → sys !! n ≠ Some x) →
  parse_panes csv = [x] →
  parse_panes csv' = [y] →
  (∃ out,
     lock_unlock_panes iteritems [prog; "--lock"; csv] (locked_panes_of w)
       sys other w
     = Return () (written (Some (default [] (locked_panes_of w))) out w)
     ∧ not_valid_message x ∈ out)
  ∧ (∃ l out,
       lock_unlock_panes iteritems [prog; "--lock"; csv'] (locked_panes_of w)
         sys other w
       = Return () (written (Some l) out w)
       ∧ y ∈ l).
Proof.
  intros Hsys Hother Hno_other Hno_sys Hcsv Hcsv'.
  assert (is_valid (other ∪ sys) x = false) as Hx.
  { apply not_true_is_false. rewrite is_valid_img, elem_of_map_img.
    intros [n [Hn|[Hnone Hn]]%lookup_union_Some_raw].
    - by apply (Hno_other n).
    - destruct (decide (n = name)) as [->|Hne]; [congruence |].
      by apply (Hno_sys n). }
  assert (is_valid (other ∪ sys) y = true) as Hy.
  { rewrite is_valid_img, elem_of_map_img. exists name.
    apply lookup_union_Some_raw. by left. }
  split.
  - destruct (lock_run_reports prog csv sys other w) as [out Hout].
    assert (validated sys other csv = []) as HL.
    { unfold validated. rewrite Hcsv. simpl. by rewrite Hx. }
    rewrite HL in Hout.
    assert (lock_result (locked_panes_of w) []
            = default [] (locked_panes_of w)) as Hres
      by by destruct (locked_panes_of w).
    rewrite Hres in Hout. eexists. split; [exact Hout |].
    apply elem_of_app. left. apply list_elem_of_fmap. exists x.
    split; [done |].
    apply (invalid_keys_valid_id iteritems iteritems_perm (other ∪ sys)
             (parse_panes csv)).
    rewrite Hcsv. split; [left | done].
  - destruct (lock_run iteritems iteritems_perm prog csv' sys other w)
      as [out Hout].
    eexists _, out. split; [exact Hout |].
    apply elem_of_lock_result. right. unfold validated.
    rewrite Hcsv'. simpl. rewrite Hy. left.
Qed.

(** X13: validation completes for every request, with or without
    repetitions.  What it hands on is a subsequence of the request that
    holds all its valid entries, and it prints one message for each
    distinct invalid identifier. *)
Theorem validation_keeps_valid (sys other : gmap string string)
    (R : list string) (w : World) :
  ∃ L out,
    remove_invalid iteritems (valid_id iteritems (other ∪ sys) R) R w
    = Return L (add_stdout out w)
    ∧ L `sublist_of` R
    ∧ filter (λ x, x ∈ (map_img (other ∪ sys) : gset string)) L
      = filter (λ x, x ∈ (map_img (other ∪ sys) : gset string)) R
    ∧ out ≡ₚ not_valid_message
               <$> remove_dups
                     (filter (λ x, x ∉ (map_img (other ∪ sys) : gset string))
                        R).
Proof.
  eexists _, _. split_and!.
  - apply (remove_invalid_run iteritems iteritems_perm).
  - apply drop_invalid_once_sublist.
  - transitivity
      (filter (λ x, is_valid (other ∪ sys) x = true)
         (drop_invalid_once (is_valid (other ∪ sys)) [] R)).
    { apply list_filter_iff. intros x. symmetry. apply is_valid_img. }
    rewrite filter_valid_drop_invalid_once.
    apply list_filter_iff. intros x. apply is_valid_img.
  - apply fmap_Permutation.
    destruct (invalid_keys_valid_id iteritems iteritems_perm (other ∪ sys) R)
      as [Hnd Hiff].
    apply NoDup_Permutation; [done | apply NoDup_remove_dups |].
    intros x.
    rewrite Hiff, elem_of_remove_dups, list_elem_of_filter, <- is_valid_img.
    destruct (is_valid (other ∪ sys) x); split; intros [? ?]; done.
Qed.

(** X14: a lock request without repetitions that names no valid pane still
    writes: the list that was there is written back, and an absent list
    becomes the empty list. *)
Theorem lock_of_invalid_request (prog csv : string)
    (sys other : gmap string string) (w : World) :
  NoDup (parse_panes csv) →
  (∀ x, x ∈ parse_panes csv → x ∉ (map_img (other ∪ sys) : gset string)) →
  ∃ w',
    lock_unlock_panes iteritems [prog; "--lock"; csv] (locked_panes_of w)
      sys other w = Return () w'
    ∧ locked_panes_of w' = Some (default [] (locked_panes_of w))
    ∧ hidden_panes_of w' = Some (default [] (locked_panes_of w)).
Proof.
  intros HR Hinvalid.
  destruct (lock_run iteritems iteritems_perm prog csv sys other w)
    as [out Hout].
  assert (validated sys other csv = []) as HL.
  { rewrite validated_NoDup by done.
    induction (parse_panes csv) as [|x l IH]; [done |].
    rewrite filter_cons_False by (apply Hinvalid; left).
    apply IH.
    - by apply NoDup_cons in HR as [_ ?].
    - intros y Hy. apply Hinvalid. by right. }
  rewrite HL in Hout.
  assert (lock_result (locked_panes_of w) [] = default [] (locked_panes_of w))
    as Hres by by destruct (locked_panes_of w).
  rewrite Hres in Hout. eexists. split; [exact Hout |].
  by rewrite locked_panes_written, hidden_panes_written.
Qed.


End MoreProperties.

(** ** The request as parsed from the argument *)

Lemma split_nonempty (sep : ascii) (s : string) : PyStr.split sep s ≠ [].
Proof.
  destruct s as [|c s]; simpl; [done |].
  destruct (Ascii.eqb c sep); [done |]. by destruct (PyStr.split sep s).
Qed.

Lemma split_no_sep (sep : ascii) (s piece : string) :
  piece ∈ PyStr.split sep s → sep ∉ list_ascii_of_string piece.
Proof.
  revert piece. induction s as [|c s IH]; intros piece Hin.
  - apply list_elem_of_singleton in Hin as ->. apply not_elem_of_nil.
  - simpl in Hin. destruct (Ascii.eqb_spec c sep) as [->|Hne].
    + apply elem_of_cons in Hin as [->|Hin]; [apply not_elem_of_nil | auto].
    + destruct (PyStr.split sep s) as [|q qs].
      * apply list_elem_of_singleton in Hin as ->. simpl.
        rewrite not_elem_of_cons. split; [done | apply not_elem_of_nil].
      * apply elem_of_cons in Hin as [->|Hin].
        -- simpl. rewrite not_elem_of_cons. split; [done |].
           apply IH. left.
        -- apply IH. by right.
Qed.

Lemma elem_of_lstrip_by (p : ascii → bool) (s : string) (c : ascii) :
  c ∈ list_ascii_of_string (PyStr.lstrip_by p s) →
  c ∈ list_ascii_of_string s.
Proof.
  induction s as [|c' s IH]; [done |]. simpl.
  destruct (p c'); [|done]. intros Hc. right. by apply IH.
Qed.

Lemma elem_of_rstrip_by (p : ascii → bool) (s : string) (c : ascii) :
  c ∈ list_ascii_of_string (PyStr.rstrip_by p s) →
  c ∈ list_ascii_of_string s.
Proof.
  induction s as [|c' s IH]; [done |]. simpl.
  destruct (PyStr.rstrip_by p s) as [|c'' r].
  - destruct (p c'); simpl.
    + by intros ?%elem_of_nil.
    + intros ->%list_elem_of_singleton. left.
  - simpl. intros [->|Hc]%elem_of_cons; [left | right; by apply IH].
Qed.

(** X16: the request parsed from the argument is never empty, and each of
    its entries is free of commas and of white space at either end. *)
Theorem parse_panes_shape (argument : string) :
  parse_panes argument ≠ []
  ∧ ∀ x, x ∈ parse_panes argument →
         has_comma x = false ∧ PyStr.strip x = x.
Proof.
  unfold parse_panes. split.
  - intros Hnil%fmap_nil_inv. by apply split_nonempty in Hnil.
  - intros x (piece & -> & Hpiece)%list_elem_of_fmap. split.
    + unfold has_comma. apply bool_decide_eq_false. intros Hc.
      apply (split_no_sep _ _ _ Hpiece).
      unfold PyStr.strip, PyStr.rstrip in Hc.
      by apply elem_of_lstrip_by, elem_of_rstrip_by in Hc.
    + apply strip_idemp.
Qed.

Lemma split_piece (sep : ascii) (s rest : string) :
  sep ∉ list_ascii_of_string s →
  PyStr.split sep (s +:+ String sep rest) = s :: PyStr.split sep rest.
Proof.
  induction s as [|c s IH]; intros Hs.
  - rewrite append_empty. simpl. by rewrite Ascii.eqb_refl.
  - simpl in Hs. apply not_elem_of_cons in Hs as [Hne Hs].
    rewrite append_String. simpl. rewrite (IH Hs).
    destruct (Ascii.eqb_spec c sep) as [->|_]; done.
Qed.

Lemma split_single (sep : ascii) (s : string) :
  sep ∉ list_ascii_of_string s → PyStr.split sep s = [s].
Proof.
  induction s as [|c s IH]; intros Hs; [done |].
  simpl in Hs. apply not_elem_of_cons in Hs as [Hne Hs].
  simpl. rewrite (IH Hs).
  destruct (Ascii.eqb_spec c sep) as [->|_]; done.
Qed.

Lemma strip_space_cons (c : ascii) (s : string) :
  PyStr.isspace c = true → PyStr.strip (String c s) = PyStr.strip s.
Proof.
  intros Hc. unfold PyStr.strip, PyStr.rstrip. simpl.
  destruct (PyStr.rstrip_by PyStr.isspace s) as [|c' r].
  - by rewrite Hc.
  - simpl. by rewrite Hc.
Qed.

Lemma parse_panes_space (s : string) :
  parse_panes (String " " s) = parse_panes s.
Proof.
  unfold parse_panes. simpl.
  pose proof (split_nonempty "," s) as Hne.
  destruct (PyStr.split "," s) as [|piece pieces]; [done |].
  rewrite !fmap_cons. by rewrite strip_space_cons.
Qed.

(** X17: a non-empty list of identifiers that are free of commas and of
    white space at either end can be handed over as one argument: joined
    with a comma and a space, it is parsed back to the same list. *)
Theorem parse_panes_join (L : list string) :
  L ≠ [] →
  Forall (λ x, has_comma x = false ∧ PyStr.strip x = x) L →
  parse_panes (join_csv L) = L.
Proof.
  intros Hne HL. induction HL as [|x L [Hcomma Hstrip] HL IH]; [done |].
  unfold has_comma in Hcomma. apply bool_decide_eq_false in Hcomma.
  destruct L as [|y L].
  - simpl. unfold parse_panes. rewrite split_single by done.
    by rewrite fmap_cons, Hstrip.
  - change (join_csv (x :: y :: L))
      with (x +:+ String "," (String " " (join_csv (y :: L)))).
    unfold parse_panes. rewrite split_piece by done.
    rewrite fmap_cons, Hstrip. f_equal.
    fold (parse_panes (String " " (join_csv (y :: L)))).
    rewrite parse_panes_space. by apply IH.
Qed.

(** ** The script as a whole *)

Lemma sanity_check_passes (h : Host) (w : World) :
  PyStr.strip_quotes (PyStr.rstrip (console_stat h)) = "root"
  ∨ is_Some (console_defaults h) →
  sanity_check h w = Return () w.
Proof.
  intros Hok. unfold sanity_check. case_decide; [done |].
  destruct Hok as [?|[out Hout]]; [done |]. rewrite Hout.
  unfold defaults_delete. by repeat case_match.
Qed.

Lemma get_bundle_identifiers_readable (h : Host)
    (sgood lgood : list (string * string)) (w : World) :
  system_bundles h = readable sgood →
  library_bundles h = readable lgood →
  get_bundle_identifiers h w = Return (catalog_of sgood, catalog_of lgood) w.
Proof.
  intros Hs Hl. unfold get_bundle_identifiers. rewrite Hs, Hl.
  erewrite bind_Return by apply read_bundles_fold.
  erewrite bind_Return by apply read_bundles_fold.
  reflexivity.
Qed.

(** X18: for root, with a console user the check passes for and two
    directories of readable bundles, a run acts on the list that is in the
    store when it starts: [--lock] and [--unlock] run [lock_unlock_panes]
    with the dictionaries read from the two directories, [--unlockall],
    [--restore] and [--locked] run their functions. *)
Theorem script_dispatch
    (iteritems : ∀ V, gmap string V → list (string * V))
    (h : Host) (prog : string) (sgood lgood : list (string * string))
    (w : World) :
  getuid h = 0 →
  PyStr.strip_quotes (PyStr.rstrip (console_stat h)) = "root"
  ∨ is_Some (console_defaults h) →
  system_bundles h = readable sgood →
  library_bundles h = readable lgood →
  (∀ command csv,
     command = "--lock" ∨ command = "--unlock" →
     script iteritems h [prog; command; csv] w
     = lock_unlock_panes iteritems [prog; command; csv] (locked_panes_of w)
         (catalog_of sgood) (catalog_of lgood) w)
  ∧ script iteritems h [prog; "--unlockall"] w
    = unlock_all (locked_panes_of w) w
  ∧ script iteritems h [prog; "--restore"] w = restore_all w
  ∧ script iteritems h [prog; "--locked"] w
    = list_current_locked (locked_panes_of w) w.
Proof.
  intros Huid Hconsole Hs Hl.
  pose proof (get_bundle_identifiers_readable h sgood lgood w Hs Hl) as Hg.
  pose proof (sanity_check_passes h w Hconsole) as Hsc.
  assert (∀ argv, script iteritems h argv w
                  = main iteritems h argv (locked_panes_of w) w) as Hscript.
  { intros argv. unfold script. by erewrite bind_Return by reflexivity. }
  split_and!.
  - intros command csv Hcmd. rewrite Hscript. unfold main.
    rewrite Huid. simpl.
    destruct Hcmd as [-> | ->];
      repeat case_decide; try discriminate;
      try (by exfalso; intuition discriminate);
      (rewrite (bind_Return _ _ _ _ _ Hg); cbv beta iota;
       rewrite (bind_Return _ _ _ _ _ Hsc); reflexivity).
  - rewrite Hscript. unfold main. rewrite Huid. simpl.
    repeat case_decide; try discriminate;
      try (by exfalso; intuition discriminate).
    by rewrite (bind_Return _ _ _ _ _ Hsc).
  - rewrite Hscript. unfold main. rewrite Huid. simpl.
    repeat case_decide; try discriminate;
      try (by exfalso; intuition discriminate).
    by rewrite (bind_Return _ _ _ _ _ Hsc).
  - rewrite Hscript. unfold main. rewrite Huid. simpl.
    repeat case_decide; try discriminate;
      try (by exfalso; intuition discriminate).
    reflexivity.
Qed.

(** ** The further properties at concrete inputs *)

Lemma script_refuses_non_root_witness :
  getuid user_host ≠ 0
  ∧ script sorted_items user_host [script_name; "--lock"; "com.example.sound"]
      empty_world
    = SysExit 1
        (add_stdout ["You must run this tool with sudo or as root!"]
           empty_world).
Proof.
  assert (getuid user_host ≠ 0) as H by discriminate.
  split; [exact H |].
  exact (script_refuses_non_root sorted_items user_host
           [script_name; "--lock"; "com.example.sound"] empty_world H).
Defined.

Lemma script_keeps_mirrored_witness :
  mirrored empty_world
  ∧ mirrored
      (final (script sorted_items root_host
                [script_name; "--lock"; "com.example.sound"] empty_world)).
Proof.
  assert (mirrored empty_world) as H by reflexivity.
  split; [exact H |].
  exact (script_keeps_mirrored sorted_items root_host
           [script_name; "--lock"; "com.example.sound"] empty_world H).
Defined.

Lemma script_reads_only_witness :
  (∀ command, [script_name; "--list"] !! 1 = Some command →
              command ∉ writing_commands)
  ∧ same_store (world_locking two_panes)
      (final (script sorted_items root_host [script_name; "--list"]
                (world_locking two_panes))).
Proof.
  assert (∀ command, [script_name; "--list"] !! 1 = Some command →
                     command ∉ writing_commands) as H.
  { intros command [= <-]. unfold writing_commands.
    rewrite !not_elem_of_cons. split_and!; try discriminate.
    apply not_elem_of_nil. }
  split; [exact H |].
  exact (script_reads_only sorted_items root_host [script_name; "--list"]
           (world_locking two_panes) H).
Defined.

Lemma restore_writes_line_safe_witness :
  files (mkWorld ∅ {[ restore_path := "a.b " +:+ PyStr.nl +:+ "c.d" ]} [])
    !! restore_path = Some ("a.b " +:+ PyStr.nl +:+ "c.d")
  ∧ ∃ l w1,
      restore_all
        (mkWorld ∅ {[ restore_path := "a.b " +:+ PyStr.nl +:+ "c.d" ]} [])
      = Return () w1
      ∧ locked_panes_of w1 = Some l
      ∧ Forall (λ s, line_safe s = true) l.
Proof.
  assert (files (mkWorld ∅ {[ restore_path := "a.b " +:+ PyStr.nl +:+ "c.d" ]}
                   [])
            !! restore_path = Some ("a.b " +:+ PyStr.nl +:+ "c.d")) as H
    by reflexivity.
  split; [exact H |].
  destruct (restore_writes_line_safe _ _ H)
    as (l & w1 & w2 & w3 & Hrun & Hl & Hsafe & _).
  exists l, w1. split; [exact Hrun |]. split; [exact Hl | exact Hsafe].
Defined.

(** The run of the example above: the space at the end of the first line
    is gone. *)
Example restore_strips_lines :
  ∃ w1,
    restore_all
      (mkWorld ∅ {[ restore_path := "a.b " +:+ PyStr.nl +:+ "c.d" ]} [])
    = Return () w1
    ∧ locked_panes_of w1 = Some ["a.b"; "c.d"].
Proof.
  eexists. split.
  - vm_compute. reflexivity.
  - vm_compute. reflexivity.
Qed.

Lemma unlock_after_lock_restores_witness :
  NoDup ["com.example.backup"]
  ∧ (∀ x, x ∈ ["com.example.backup"]
          → x ∉ default [] (Some ["com.example.sound"]))
  ∧ ∃ w1 w2,
      lock_branch (Some ["com.example.sound"]) ["com.example.sound"]
        ["com.example.backup"] empty_world = Return () w1
      ∧ unlock_branch (locked_panes_of w1) (default [] (locked_panes_of w1))
          ["com.example.backup"] w1 = Return () w2
      ∧ locked_panes_of w2 = Some ["com.example.sound"].
Proof.
  assert (NoDup ["com.example.backup"]) as H1 by compute_done.
  assert (∀ x, x ∈ ["com.example.backup"]
               → x ∉ default [] (Some ["com.example.sound"])) as H2.
  { intros x ->%list_elem_of_singleton Hin.
    apply list_elem_of_singleton in Hin. discriminate Hin. }
  split; [exact H1 |]. split; [exact H2 |].
  destruct (unlock_after_lock_restores (Some ["com.example.sound"])
              ["com.example.backup"] empty_world H1 H2)
    as (w1 & w2 & Hlock & Hunlock & Hback & _).
  exists w1, w2. split; [exact Hlock |]. split; [exact Hunlock | exact Hback].
Defined.

Lemma read_bundles_catalog_witness :
  (∀ d o, (d, o) ∈ [("Backup.prefPane", "com.example.backup")] →
          short_name d ≠ short_name "Sound.one.prefPane")
  ∧ catalog_of [("Sound.prefPane", "com.example.old");
                ("Sound.one.prefPane", "com.example.sound" +:+ PyStr.nl);
                ("Backup.prefPane", "com.example.backup")]
      !! "Sound" = Some "com.example.sound".
Proof.
  assert (∀ d o, (d, o) ∈ [("Backup.prefPane", "com.example.backup")] →
                 short_name d ≠ short_name "Sound.one.prefPane") as H.
  { intros d o Hin. apply list_elem_of_singleton in Hin.
    injection Hin as -> ->. discriminate. }
  split; [exact H |].
  destruct (read_bundles_catalog
              [("Sound.prefPane", "com.example.old");
               ("Sound.one.prefPane", "com.example.sound" +:+ PyStr.nl);
               ("Backup.prefPane", "com.example.backup")] empty_world)
    as (_ & Hlast & _).
  exact (Hlast [("Sound.prefPane", "com.example.old")]
           "Sound.one.prefPane" ("com.example.sound" +:+ PyStr.nl)
           [("Backup.prefPane", "com.example.backup")] eq_refl H).
Defined.

Lemma get_bundle_identifiers_fails_witness :
  ("Broken.prefPane", None)
    ∈ system_bundles
        (mkHost 0 [("Sound.prefPane", Some "com.example.sound");
                   ("Broken.prefPane", None)] [] "root" None)
      ++ library_bundles
           (mkHost 0 [("Sound.prefPane", Some "com.example.sound");
                      ("Broken.prefPane", None)] [] "root" None)
  ∧ get_bundle_identifiers
      (mkHost 0 [("Sound.prefPane", Some "com.example.sound");
                 ("Broken.prefPane", None)] [] "root" None) empty_world
    = Raise "CalledProcessError" empty_world.
Proof.
  assert (("Broken.prefPane", None)
            ∈ system_bundles
                (mkHost 0 [("Sound.prefPane", Some "com.example.sound");
                           ("Broken.prefPane", None)] [] "root" None)
              ++ library_bundles
                   (mkHost 0 [("Sound.prefPane", Some "com.example.sound");
                              ("Broken.prefPane", None)] [] "root" None))
    as H by (simpl; right; left).
  split; [exact H |].
  exact (get_bundle_identifiers_fails _ "Broken.prefPane" empty_world H).
Defined.

Lemma script_aborts_when_defaults_read_fails_witness :
  getuid (mkHost 0 [] [] ("admin" +:+ PyStr.nl) None) = 0
  ∧ [script_name; "--unlockall"] !! 1 = Some "--unlockall"
  ∧ "--unlockall" ∈ writing_commands
  ∧ PyStr.strip_quotes
      (PyStr.rstrip (console_stat (mkHost 0 [] [] ("admin" +:+ PyStr.nl) None)))
    ≠ "root"
  ∧ console_defaults (mkHost 0 [] [] ("admin" +:+ PyStr.nl) None) = None
  ∧ script sorted_items (mkHost 0 [] [] ("admin" +:+ PyStr.nl) None)
      [script_name; "--unlockall"] (world_locking two_panes)
    = Raise "CalledProcessError" (world_locking two_panes).
Proof.
  assert ("--unlockall" ∈ writing_commands) as H3
    by (unfold writing_commands; do 3 right; left).
  assert (PyStr.strip_quotes
            (PyStr.rstrip
               (console_stat (mkHost 0 [] [] ("admin" +:+ PyStr.nl) None)))
          ≠ "root") as H4 by discriminate.
  split; [reflexivity |]. split; [reflexivity |]. split; [exact H3 |].
  split; [exact H4 |]. split; [reflexivity |].
  exact (script_aborts_when_defaults_read_fails sorted_items
           (mkHost 0 [] [] ("admin" +:+ PyStr.nl) None)
           [script_name; "--unlockall"] "--unlockall"
           (world_locking two_panes) eq_refl eq_refl H3 H4 eq_refl).
Defined.

Lemma shadowed_system_pane_rejected_witness :
  sound_catalog !! "Sound" = Some "com.example.sound"
  ∧ ({[ "Sound" := "com.vendor.sound" ]} : gmap string string) !! "Sound"
    = Some "com.vendor.sound"
  ∧ parse_panes "com.example.sound" = ["com.example.sound"]
  ∧ parse_panes "com.vendor.sound" = ["com.vendor.sound"]
  ∧ ∃ out,
      lock_unlock_panes sorted_items
        [script_name; "--lock"; "com.example.sound"]
        (locked_panes_of (world_locking two_panes)) sound_catalog
        {[ "Sound" := "com.vendor.sound" ]} (world_locking two_panes)
      = Return ()
          (written (Some (default [] (locked_panes_of
                                         (world_locking two_panes))))
             out (world_locking two_panes))
      ∧ not_valid_message "com.example.sound" ∈ out.
Proof.
  assert (∀ n, ({[ "Sound" := "com.vendor.sound" ]} : gmap string string) !! n
               ≠ Some "com.example.sound") as H3.
  { intros n Hn. apply lookup_singleton_Some in Hn as [_ Hn].
    discriminate Hn. }
  assert (∀ n, n ≠ "Sound" → sound_catalog !! n ≠ Some "com.example.sound")
    as H4.
  { intros n Hne Hn. unfold sound_catalog in Hn.
    apply lookup_singleton_Some in Hn as [Hn _]. by subst. }
  assert (sound_catalog !! "Sound" = Some "com.example.sound") as H1
    by reflexivity.
  assert (({[ "Sound" := "com.vendor.sound" ]} : gmap string string)
            !! "Sound" = Some "com.vendor.sound") as H2 by reflexivity.
  assert (parse_panes "com.example.sound" = ["com.example.sound"]) as H5
    by reflexivity.
  assert (parse_panes "com.vendor.sound" = ["com.vendor.sound"]) as H6
    by reflexivity.
  split; [exact H1 |]. split; [exact H2 |].
  split; [exact H5 |]. split; [exact H6 |].
  destruct (shadowed_system_pane_rejected sorted_items sorted_items_perm
              script_name "com.example.sound" "com.vendor.sound" "Sound"
              "com.example.sound" "com.vendor.sound" sound_catalog
              {[ "Sound" := "com.vendor.sound" ]} (world_locking two_panes)
              H1 H2 H3 H4 H5 H6)
    as [Hrejected _].
  exact Hrejected.
Defined.

Lemma validation_keeps_valid_witness :
  ∃ L out,
    remove_invalid sorted_items
      (valid_id sorted_items (∅ ∪ sound_catalog)
         ["x.y"; "com.example.sound"; "x.y"])
      ["x.y"; "com.example.sound"; "x.y"] empty_world
    = Return L (add_stdout out empty_world)
    ∧ L `sublist_of` ["x.y"; "com.example.sound"; "x.y"].
Proof.
  destruct (validation_keeps_valid sorted_items sorted_items_perm
              sound_catalog ∅ ["x.y"; "com.example.sound"; "x.y"] empty_world)
    as (L & out & Hrun & Hsub & _).
  exists L, out. split; [exact Hrun | exact Hsub].
Defined.

Lemma lock_of_invalid_request_witness :
  NoDup (parse_panes "x.y, z")
  ∧ (∀ x, x ∈ parse_panes "x.y, z" →
          x ∉ (map_img (∅ ∪ sound_catalog) : gset string))
  ∧ ∃ w',
      lock_unlock_panes sorted_items [script_name; "--lock"; "x.y, z"]
        (locked_panes_of empty_world) sound_catalog ∅ empty_world
      = Return () w'
      ∧ locked_panes_of w' = Some [].
Proof.
  assert (NoDup (parse_panes "x.y, z")) as H1 by compute_done.
  assert (∀ x, x ∈ parse_panes "x.y, z" →
               x ∉ (map_img (∅ ∪ sound_catalog) : gset string)) as H2.
  { intros x Hx. change (parse_panes "x.y, z") with ["x.y"; "z"] in Hx.
    rewrite !elem_of_cons, elem_of_nil in Hx.
    destruct Hx as [->|[->|[]]]; compute_done. }
  split; [exact H1 |]. split; [exact H2 |].
  destruct (lock_of_invalid_request sorted_items sorted_items_perm
              script_name "x.y, z" sound_catalog ∅ empty_world H1 H2)
    as (w' & Hrun & Hlocked & _).
  exists w'. split; [exact Hrun | exact Hlocked].
Defined.


Lemma parse_panes_join_witness :
  two_panes ≠ []
  ∧ Forall (λ x, has_comma x = false ∧ PyStr.strip x = x) two_panes
  ∧ parse_panes (join_csv two_panes) = two_panes.
Proof.
  assert (two_panes ≠ []) as H1 by discriminate.
  assert (Forall (λ x, has_comma x = false ∧ PyStr.strip x = x) two_panes)
    as H2 by (repeat constructor).
  split; [exact H1 |]. split; [exact H2 |].
  exact (parse_panes_join two_panes H1 H2).
Defined.

Lemma script_dispatch_witness :
  getuid root_host = 0
  ∧ (PyStr.strip_quotes (PyStr.rstrip (console_stat root_host)) = "root"
     ∨ is_Some (console_defaults root_host))
  ∧ system_bundles root_host
    = readable [("Sound.prefPane", "com.example.sound" +:+ PyStr.nl)]
  ∧ library_bundles root_host = readable []
  ∧ script sorted_items root_host [script_name; "--unlockall"]
      (world_locking two_panes)
    = unlock_all (locked_panes_of (world_locking two_panes))
        (world_locking two_panes).
Proof.
  assert (PyStr.strip_quotes (PyStr.rstrip (console_stat root_host)) = "root"
          ∨ is_Some (console_defaults root_host)) as H2 by (left; reflexivity).
  split; [reflexivity |]. split; [exact H2 |].
  split; [reflexivity |]. split; [reflexivity |].
  destruct (script_dispatch sorted_items root_host script_name
              [("Sound.prefPane", "com.example.sound" +:+ PyStr.nl)] []
              (world_locking two_panes) eq_refl H2 eq_refl eq_refl)
    as (_ & Hall & _).
  exact Hall.
Defined.
